(** * Ingress allowlist filter of the routed driver (drivers/routed/netfilter.go)

    A shallow embedding of the allowlist parser, the rule compiler and the
    apply/remove lifecycle of [netFilter], together with models of the
    library functions they call (Go's [strings] and [net], and the
    repository's [iptables] package), and the properties of the
    specification proved over them.

    Conventions.  A Go [string] is a byte sequence: Rocq's [string].  A
    byte is a [Z] in [0, 256).  A Go pointer that may be nil is an
    [option]; a Go [error] is its message, and the nil error is [None].
    Calls to [logrus] only write to the process log and are left out. *)

From Stdlib Require Import ZArith Ascii String DecimalString List Lia.
From stdpp Require Import base option list strings gmap.

Local Open Scope Z_scope.

(** ** Bytes and slices of strings *)

Definition byte_of (c : ascii) : Z := Z.of_N (N_of_ascii c).
Definition char_of (b : Z) : ascii := ascii_of_N (Z.to_N b).

(** [len(s)] *)
Definition len (s : string) : nat := String.length s.

(** [s[n:]], for [n <= len(s)] *)
Fixpoint slice_from (n : nat) (s : string) : string :=
  match n, s with
  | O, _ => s
  | S n', String _ s' => slice_from n' s'
  | S _, EmptyString => EmptyString
  end.

Definition of_bytes (l : list Z) : string :=
  fold_right (fun b s => String (char_of b) s) EmptyString l.

(** ** Package [strings] of the Go standard library *)

Module strings.

Fixpoint HasPrefix (s prefix : string) : bool :=
  match prefix, s with
  | EmptyString, _ => true
  | String _ _, EmptyString => false
  | String p prefix', String c s' =>
      if Ascii.eqb c p then HasPrefix s' prefix' else false
  end.

(** [Contains(s, substr)]: [substr] occurs somewhere in [s]. *)
Fixpoint Contains (s substr : string) : bool :=
  HasPrefix s substr ||
  match s with
  | EmptyString => false
  | String _ s' => Contains s' substr
  end.

(** [Split(s, sep)] for a non-empty [sep]: the pieces of [s] between the
    leftmost non-overlapping occurrences of [sep]; always at least one
    piece.  [skip] counts the bytes of a separator still to be passed,
    [cur] is the current piece, reversed.  (For an empty [sep] Go explodes
    [s] into UTF-8 sequences; no caller here passes one, and the model then
    returns [s] whole.) *)
Fixpoint Split_go (sep : string) (skip : nat) (cur : string) (s : string)
  : list string :=
  match s with
  | EmptyString => [String.rev cur]
  | String c s' =>
      match skip with
      | S k => Split_go sep k cur s'
      | O =>
          if negb (len sep =? 0)%nat && HasPrefix s sep
          then String.rev cur :: Split_go sep (len sep - 1) EmptyString s'
          else Split_go sep O (String c cur) s'
      end
  end.

Definition Split (s sep : string) : list string :=
  Split_go sep O EmptyString s.

(** UTF-8 encoding of a code point below U+10000. *)
Definition utf8 (r : Z) : string :=
  if r <? 0x80 then of_bytes [r]
  else if r <? 0x800 then
    of_bytes [Z.lor 0xC0 (Z.shiftr r 6); Z.lor 0x80 (Z.land r 0x3F)]
  else
    of_bytes [Z.lor 0xE0 (Z.shiftr r 12);
              Z.lor 0x80 (Z.land (Z.shiftr r 6) 0x3F);
              Z.lor 0x80 (Z.land r 0x3F)].

(** The code points for which [unicode.IsSpace] holds. *)
Definition White_Space : list Z :=
  [0x09; 0x0A; 0x0B; 0x0C; 0x0D; 0x20; 0x85; 0xA0; 0x1680;
   0x2000; 0x2001; 0x2002; 0x2003; 0x2004; 0x2005; 0x2006; 0x2007;
   0x2008; 0x2009; 0x200A; 0x2028; 0x2029; 0x202F; 0x205F; 0x3000].

Fixpoint CutPrefix (s prefix : string) : option string :=
  match prefix, s with
  | EmptyString, _ => Some s
  | String _ _, EmptyString => None
  | String p prefix', String c s' =>
      if Ascii.eqb c p then CutPrefix s' prefix' else None
  end.

(** The rest of [s] after one leading white-space rune, if it has one;
    [enc] lists the encodings of the white-space runes. *)
Fixpoint cut_space (enc : list string) (s : string) : option string :=
  match enc with
  | [] => None
  | e :: enc' =>
      match CutPrefix s e with
      | Some rest => Some rest
      | None => cut_space enc' s
      end
  end.

Fixpoint trim_go (enc : list string) (fuel : nat) (s : string) : string :=
  match fuel with
  | O => s
  | S fuel' =>
      match cut_space enc s with
      | Some rest => trim_go enc fuel' rest
      | None => s
      end
  end.

(** [TrimLeftFunc(s, unicode.IsSpace)]; every cut removes a byte, so
    [len s] rounds are enough. *)
Definition TrimLeft (s : string) : string :=
  trim_go (map utf8 White_Space) (len s) s.

(** [TrimRightFunc(s, unicode.IsSpace)]: the same from the other end. *)
Definition TrimRight (s : string) : string :=
  String.rev
    (trim_go (map (fun r => String.rev (utf8 r)) White_Space) (len s)
       (String.rev s)).

Definition TrimSpace (s : string) : string := TrimRight (TrimLeft s).

End strings.

(** ** Package [net] of the Go standard library

    The address parsers and printers the filter calls, after the sources of
    Go 1.9's [net/ip.go] and [net/parse.go].  An [IP] and an [IPMask] are
    byte slices; the nil slice is the empty list. *)

Module net.

Abbreviation IP := (list Z) (only parsing).
Abbreviation IPMask := (list Z) (only parsing).

Record IPNet := { IPNet_IP : IP; IPNet_Mask : IPMask }.

Definition IPv4len : nat := 4.
Definition IPv6len : nat := 16.

(** Bigger than we need, not too big to worry about overflow. *)
Definition big : Z := 0xFFFFFF.

Definition between (lo hi c : ascii) : bool :=
  (byte_of lo <=? byte_of c) && (byte_of c <=? byte_of hi).

(** [dtoi(s)]: decimal to integer; number, characters consumed, success. *)
Fixpoint dtoi_loop (s : string) (n : Z) (i : nat) : Z * nat * bool :=
  match s with
  | String c s' =>
      if between "0" "9" c then
        let n := n * 10 + (byte_of c - byte_of "0") in
        if big <=? n then (big, i, false) else dtoi_loop s' n (S i)
      else if (i =? 0)%nat then (0, O, false) else (n, i, true)
  | EmptyString => if (i =? 0)%nat then (0, O, false) else (n, i, true)
  end.

Definition dtoi (s : string) : Z * nat * bool := dtoi_loop s 0 O.

(** The value of a hexadecimal digit, of either case. *)
Definition hex_value (c : ascii) : option Z :=
  if between "0" "9" c then Some (byte_of c - byte_of "0")
  else if between "a" "f" c then Some (byte_of c - byte_of "a" + 10)
  else if between "A" "F" c then Some (byte_of c - byte_of "A" + 10)
  else None.

Fixpoint xtoi_loop (s : string) (n : Z) (i : nat) : Z * nat * bool :=
  match s with
  | String c s' =>
      match hex_value c with
      | Some d =>
          let n := n * 16 + d in
          if big <=? n then (0, i, false) else xtoi_loop s' n (S i)
      | None => if (i =? 0)%nat then (0, i, false) else (n, i, true)
      end
  | EmptyString => if (i =? 0)%nat then (0, i, false) else (n, i, true)
  end.

(** [xtoi(s)]: hexadecimal to integer; number, characters consumed,
    success. *)
Definition xtoi (s : string) : Z * nat * bool := xtoi_loop s 0 O.

Definition v4InV6Prefix : list Z := [0; 0; 0; 0; 0; 0; 0; 0; 0; 0; 0xff; 0xff].

(** [IPv4(a, b, c, d)]: the 16-byte form of the IPv4 address a.b.c.d. *)
Definition IPv4 (a b c d : Z) : IP := v4InV6Prefix ++ [a; b; c; d].

(** The loop of [parseIPv4]: [todo] octets are still to be read, [i] is the
    index of the next one. *)
Fixpoint parseIPv4_loop (todo i : nat) (s : string) (p : list Z)
  : option (list Z * string) :=
  match todo with
  | O => Some (p, s)
  | S todo' =>
      if (len s =? 0)%nat then None (* missing octets *)
      else
        let after_dot :=
          if (0 <? i)%nat then
            match s with
            | String "." s' => Some s'
            | _ => None
            end
          else Some s in
        match after_dot with
        | None => None
        | Some s =>
            let '(n, c, ok) := dtoi s in
            if negb ok || (0xFF <? n) then None
            else parseIPv4_loop todo' (S i) (slice_from c s) (<[i := n mod 256]> p)
        end
  end.

(** [parseIPv4(s)]: parse an IPv4 address (d.d.d.d). *)
Definition parseIPv4 (s : string) : option IP :=
  match parseIPv4_loop IPv4len O s [0; 0; 0; 0] with
  | Some ([a; b; c; d], EmptyString) => Some (IPv4 a b c d)
  | _ => None
  end.

(** State of the loop of [parseIPv6]; [ellipsis] is [None] for Go's -1. *)
Record v6state := {
  v6_ip : list Z;
  v6_i : nat;
  v6_s : string;
  v6_ellipsis : option nat
}.

Inductive v6step := v6_fail | v6_break (st : v6state) | v6_continue (st : v6state).

Definition byte_at (s : string) (i : nat) : option ascii := String.get i s.

(** One round of the loop of [parseIPv6]. *)
Definition parseIPv6_body (st : v6state) : v6step :=
  let ip := v6_ip st in
  let i := v6_i st in
  let s := v6_s st in
  let ellipsis := v6_ellipsis st in
  (* Hex number. *)
  let '(n, c, ok) := xtoi s in
  if negb ok || (0xFFFF <? n) then v6_fail
  else if bool_decide (byte_at s c = Some "."%char) then
    (* If followed by dot, might be in trailing IPv4. *)
    if bool_decide (ellipsis = None) && negb (i =? IPv6len - IPv4len)%nat
    then v6_fail (* not the right place *)
    else if (IPv6len <? i + IPv4len)%nat then v6_fail (* not enough room *)
    else
      match parseIPv4 s with
      | None => v6_fail
      | Some ip4 =>
          let ip := <[i := ip4 !!! 12%nat]> ip in
          let ip := <[(i + 1)%nat := ip4 !!! 13%nat]> ip in
          let ip := <[(i + 2)%nat := ip4 !!! 14%nat]> ip in
          let ip := <[(i + 3)%nat := ip4 !!! 15%nat]> ip in
          v6_break {| v6_ip := ip; v6_i := i + IPv4len; v6_s := EmptyString;
                      v6_ellipsis := ellipsis |}
      end
  else
    (* Save this 16-bit chunk. *)
    let ip := <[i := Z.shiftr n 8 mod 256]> ip in
    let ip := <[(i + 1)%nat := n mod 256]> ip in
    let i := (i + 2)%nat in
    (* Stop at end of string. *)
    let s := slice_from c s in
    match s with
    | EmptyString =>
        v6_break {| v6_ip := ip; v6_i := i; v6_s := s; v6_ellipsis := ellipsis |}
    | String ":" (String c1 s2 as s1) =>
        (* Look for ellipsis. *)
        if Ascii.eqb c1 ":" then
          match ellipsis with
          | Some _ => v6_fail (* already have one *)
          | None =>
              let st' := {| v6_ip := ip; v6_i := i; v6_s := s2;
                            v6_ellipsis := Some i |} in
              if (len s2 =? 0)%nat then v6_break st' (* can be at end *)
              else v6_continue st'
          end
        else
          v6_continue {| v6_ip := ip; v6_i := i; v6_s := s1;
                         v6_ellipsis := ellipsis |}
    | _ => v6_fail (* must be followed by colon and more *)
    end.

(** [for i < IPv6len { ... }]: every round that continues adds 2 to [i]. *)
Fixpoint parseIPv6_loop (fuel : nat) (st : v6state) : option v6state :=
  if (v6_i st <? IPv6len)%nat then
    match fuel with
    | O => None
    | S fuel' =>
        match parseIPv6_body st with
        | v6_fail => None
        | v6_break st' => Some st'
        | v6_continue st' => parseIPv6_loop fuel' st'
        end
    end
  else Some st.

(** [for j := hi; j >= lo; j--], as the list of the values of [j]. *)
Definition downto (hi_excl lo : nat) : list nat := rev (seq lo (hi_excl - lo)).

(** [parseIPv6(s, false)]: parse a literal IPv6 address (RFC 4291 and
    RFC 5952), no zone. *)
Definition parseIPv6 (s : string) : option IP :=
  let ip := replicate IPv6len 0 in
  (* Might have leading ellipsis. *)
  let '(ellipsis, s, only_ellipsis) :=
    match s with
    | String ":" (String ":" s') => (Some O, s', (len s' =? 0)%nat)
    | _ => (None, s, false)
    end in
  if only_ellipsis : bool then Some ip
  else
    match parseIPv6_loop (S IPv6len)
            {| v6_ip := ip; v6_i := O; v6_s := s; v6_ellipsis := ellipsis |} with
    | None => None
    | Some st =>
        let ip := v6_ip st in
        let i := v6_i st in
        (* Must have used entire string. *)
        if negb (len (v6_s st) =? 0)%nat then None
        else if (i <? IPv6len)%nat then
          (* If didn't parse enough, expand ellipsis. *)
          match v6_ellipsis st with
          | None => None
          | Some ellipsis =>
              let n := (IPv6len - i)%nat in
              let ip := fold_left (fun ip j => <[(j + n)%nat := ip !!! j]> ip)
                          (downto i ellipsis) ip in
              let ip := fold_left (fun ip j => <[j := 0]> ip)
                          (downto (ellipsis + n) ellipsis) ip in
              Some ip
          end
        else
          match v6_ellipsis st with
          | Some _ => None (* ellipsis must represent at least one 0 group *)
          | None => Some ip
          end
    end.

(** [ParseIP(s)]: the first '.' or ':' decides between IPv4 and IPv6. *)
Fixpoint ParseIP_scan (whole s : string) : option IP :=
  match s with
  | EmptyString => None
  | String c s' =>
      if Ascii.eqb c "." then parseIPv4 whole
      else if Ascii.eqb c ":" then parseIPv6 whole
      else ParseIP_scan whole s'
  end.

Definition ParseIP (s : string) : option IP := ParseIP_scan s s.

(** [CIDRMask(ones, bits)] *)
Fixpoint CIDRMask_loop (l : nat) (n : Z) : list Z :=
  match l with
  | O => []
  | S l' =>
      if 8 <=? n then 0xff :: CIDRMask_loop l' (n - 8)
      else Z.lxor 0xff (Z.shiftr 0xff n) :: CIDRMask_loop l' 0
  end.

Definition CIDRMask (ones bits : Z) : IPMask :=
  if negb (bits =? 8 * Z.of_nat IPv4len) && negb (bits =? 8 * Z.of_nat IPv6len) then []
  else if (ones <? 0) || (bits <? ones) then []
  else CIDRMask_loop (Z.to_nat (bits / 8)) ones.

Definition allFF (b : list Z) : bool := forallb (fun c => c =? 0xff) b.
Definition isZeros (b : list Z) : bool := forallb (fun c => c =? 0) b.

(** [ip.Mask(mask)] *)
Definition IP_Mask (ip : IP) (mask : IPMask) : IP :=
  let mask :=
    if (length mask =? IPv6len)%nat && (length ip =? IPv4len)%nat
       && allFF (take 12 mask)
    then drop 12 mask else mask in
  let ip :=
    if (length mask =? IPv4len)%nat && (length ip =? IPv6len)%nat
       && bool_decide (take 12 ip = v4InV6Prefix)
    then drop 12 ip else ip in
  if negb (length ip =? length mask)%nat then []
  else zip_with Z.land ip mask.

(** [byteIndex(s, c)] *)
Fixpoint byteIndex (s : string) (c : ascii) : option nat :=
  match s with
  | EmptyString => None
  | String c' s' => if Ascii.eqb c' c then Some O else S <$> byteIndex s' c
  end.

(** [s[:n]] *)
Fixpoint slice_to (n : nat) (s : string) : string :=
  match n, s with
  | S n', String c s' => String c (slice_to n' s')
  | _, _ => EmptyString
  end.

(** [ParseCIDR(s)]: the address and the network of "a.b.c.d/n" or of
    "x:x::x/n"; [None] stands for the [ParseError]. *)
Definition ParseCIDR (s : string) : option (IP * IPNet) :=
  match byteIndex s "/" with
  | None => None
  | Some i =>
      let addr := slice_to i s in
      let mask := slice_from (S i) s in
      let '(iplen, ip) :=
        match parseIPv4 addr with
        | Some ip => (IPv4len, Some ip)
        | None => (IPv6len, parseIPv6 addr)
        end in
      let '(n, i, ok) := dtoi mask in
      match ip with
      | None => None
      | Some ip =>
          if negb ok || negb (i =? len mask)%nat || (n <? 0)
             || (8 * Z.of_nat iplen <? n)
          then None
          else
            let m := CIDRMask n (8 * Z.of_nat iplen) in
            Some (ip, {| IPNet_IP := IP_Mask ip m; IPNet_Mask := m |})
      end
  end.

(** *** Printing *)

(** [uitoa(val)]: the decimal form of an unsigned integer. *)
Definition uitoa (val : Z) : string :=
  NilZero.string_of_uint (N.to_uint (Z.to_N val)).

Definition hexDigit (v : Z) : ascii :=
  default "0"%char (String.get (Z.to_nat v) "0123456789abcdef").

(** [appendHex(dst, i)]: [i] in hexadecimal, no leading zeros. *)
Definition appendHex (dst : string) (i : Z) : string :=
  if i =? 0 then dst +:+ "0"
  else
    fold_left
      (fun dst j =>
         let v := Z.shiftr i (j * 4) in
         if 0 <? v then dst +:+ String (hexDigit (Z.land v 0xf)) EmptyString
         else dst)
      [7; 6; 5; 4; 3; 2; 1; 0] dst.

(** [hexString(b)]: two hexadecimal digits per byte. *)
Fixpoint hexString (b : list Z) : string :=
  match b with
  | [] => EmptyString
  | tn :: b' =>
      String (hexDigit (Z.shiftr tn 4)) (String (hexDigit (Z.land tn 0xf)) (hexString b'))
  end.

(** [ip.To4()]; [[]] is Go's nil. *)
Definition IP_To4 (ip : IP) : IP :=
  if (length ip =? IPv4len)%nat then ip
  else if (length ip =? IPv6len)%nat && isZeros (take 10 ip)
          && (ip !!! 10%nat =? 0xff) && (ip !!! 11%nat =? 0xff)
  then take 4 (drop 12 ip)
  else [].

(** The inner loop of [IP.String]: the end of the run of zero groups
    that starts at [j]. *)
Fixpoint zero_run (fuel : nat) (p : list Z) (j : nat) : nat :=
  match fuel with
  | O => j
  | S fuel' =>
      if (j <? IPv6len)%nat && (p !!! j =? 0) && (p !!! (j + 1)%nat =? 0)
      then zero_run fuel' p (j + 2) else j
  end.

(** Find the longest run of zero groups, [e0, e1). *)
Fixpoint longest_run (fuel : nat) (p : list Z) (i : nat) (e0 e1 : Z) : Z * Z :=
  match fuel with
  | O => (e0, e1)
  | S fuel' =>
      if (i <? IPv6len)%nat then
        let j := zero_run 8 p i in
        if (i <? j)%nat && (e1 - e0 <? Z.of_nat j - Z.of_nat i)
        then longest_run fuel' p (j + 2) (Z.of_nat i) (Z.of_nat j)
        else longest_run fuel' p (i + 2) e0 e1
      else (e0, e1)
  end.

(** Print with possible :: in place of run of zeros. *)
Fixpoint print_groups (fuel : nat) (p : list Z) (e0 e1 : Z) (i : nat) (b : string)
  : string :=
  let group i := Z.lor (Z.shiftl (p !!! i) 8) (p !!! (i + 1)%nat) in
  match fuel with
  | O => b
  | S fuel' =>
      if (i <? IPv6len)%nat then
        if Z.of_nat i =? e0 then
          let b := b +:+ "::" in
          let i := Z.to_nat e1 in
          if (IPv6len <=? i)%nat then b
          else print_groups fuel' p e0 e1 (i + 2) (appendHex b (group i))
        else
          let b := if (0 <? i)%nat then b +:+ ":" else b in
          print_groups fuel' p e0 e1 (i + 2) (appendHex b (group i))
      else b
  end.

(** [ip.String()] *)
Definition IP_String (ip : IP) : string :=
  let p := ip in
  if (length ip =? 0)%nat then "<nil>"
  else
    let p4 := IP_To4 p in
    if (length p4 =? IPv4len)%nat then
      (* If IPv4, use dotted notation. *)
      uitoa (p4 !!! 0%nat) +:+ "." +:+ uitoa (p4 !!! 1%nat) +:+ "."
        +:+ uitoa (p4 !!! 2%nat) +:+ "." +:+ uitoa (p4 !!! 3%nat)
    else if negb (length p =? IPv6len)%nat then "?" +:+ hexString ip
    else
      let '(e0, e1) := longest_run 8 p O (-1) (-1) in
      (* The symbol "::" MUST NOT be used to shorten just one 16 bit 0 field. *)
      let '(e0, e1) := if e1 - e0 <=? 2 then (-1, -1) else (e0, e1) in
      print_groups 8 p e0 e1 O EmptyString.

(** [networkNumberAndMask(n)]; [None] for the pair of nils. *)
Definition networkNumberAndMask (n : IPNet) : option (IP * IPMask) :=
  let ip4 := IP_To4 (IPNet_IP n) in
  let ip := if (length ip4 =? 0)%nat then IPNet_IP n else ip4 in
  if (length ip4 =? 0)%nat && negb (length ip =? IPv6len)%nat then None
  else if (length (IPNet_Mask n) =? IPv4len)%nat then
    if negb (length ip =? IPv4len)%nat then None else Some (ip, IPNet_Mask n)
  else if (length (IPNet_Mask n) =? IPv6len)%nat then
    if (length ip =? IPv4len)%nat then Some (ip, drop 12 (IPNet_Mask n))
    else Some (ip, IPNet_Mask n)
  else None.

(** Count the leading 1 bits of the byte [v]. *)
Fixpoint count_ones (fuel : nat) (v n : Z) : Z * Z :=
  match fuel with
  | O => (v, n)
  | S fuel' =>
      if Z.land v 0x80 =? 0 then (v, n)
      else count_ones fuel' (Z.shiftl v 1 mod 256) (n + 1)
  end.

(** [simpleMaskLength(mask)]: the number of leading ones if [mask] is
    ones followed by zeros, else -1. *)
Fixpoint simpleMaskLength_loop (mask : list Z) (n : Z) : Z :=
  match mask with
  | [] => n
  | v :: rest =>
      if v =? 0xff then simpleMaskLength_loop rest (n + 8)
      else
        let '(v, n) := count_ones 8 v n in
        if negb (v =? 0) then -1       (* rest must be 0 bits *)
        else if isZeros rest then n else -1
  end.

Definition simpleMaskLength (mask : IPMask) : Z := simpleMaskLength_loop mask 0.

(** [m.String()] *)
Definition IPMask_String (m : IPMask) : string :=
  if (length m =? 0)%nat then "<nil>" else hexString m.

(** [n.String()]: the CIDR notation of [n], like "192.0.2.0/24" or
    "2001:db8::/48". *)
Definition IPNet_String (n : IPNet) : string :=
  match networkNumberAndMask n with
  | None => "<nil>"
  | Some (nn, m) =>
      let l := simpleMaskLength m in
      if l =? -1 then IP_String nn +:+ "/" +:+ IPMask_String m
      else IP_String nn +:+ "/" +:+ uitoa l
  end.

(** [n.Contains(ip)]: whether the network [n] includes [ip]. *)
Definition IPNet_Contains (n : IPNet) (ip : IP) : bool :=
  let '(nn, m) := default ([], []) (networkNumberAndMask n) in
  let x := IP_To4 ip in
  let ip := if (length x =? 0)%nat then ip else x in
  let l := length ip in
  if negb (l =? length nn)%nat then false
  else
    forallb (fun i => Z.land (nn !!! i) (m !!! i) =? Z.land (ip !!! i) (m !!! i))
      (seq 0 l).

End net.

(** ** Errors and formatting *)

(** A Go [error], by its message. *)
Abbreviation error := string (only parsing).

Module fmt.

(** The verb [%s] applied to a [[]string]: the elements between brackets,
    separated by spaces. *)
Definition verb_s_slice (l : list string) : string :=
  "[" +:+ String.concat " " l +:+ "]".

End fmt.

(** ** Package [iptables] of the repository: the backend *)

Module iptables.

Inductive Table := Nat | Filter | Mangle.

(** Modelled from the spec: the package [iptables] is not among the
    sources.  A backend executes one rule-mutation command at a time and
    reports the output and the success or failure of the command
    ([execute]), and answers the query whether a chain of a table exists
    ([chain_exists]). *)
Class Backend (St : Type) := {
  execute : list string → St → (string * option error) * St;
  chain_exists : string → Table → St → bool
}.

(** The backend together with the record of the commands it was given, in
    the order in which they were issued. *)
Record World (St : Type) := {
  backend : St;
  executed : list (list string)
}.
Arguments backend {St} _.
Arguments executed {St} _.

(** Modelled from the spec: [Raw(args...)] hands one command to the
    backend, which records it, and returns the output and the error. *)
Definition Raw `{Backend St} (args : list string) (w : World St)
  : (string * option error) * World St :=
  let '(res, st) := execute args (backend w) in
  (res, {| backend := st; executed := executed w ++ [args] |}).

(** Modelled from the spec: [ExistChain(chain, table)] is the "chain
    exists" query; it is no rule-mutation command. *)
Definition ExistChain `{Backend St} (chain : string) (table : Table) (w : World St)
  : bool * World St :=
  (chain_exists chain table (backend w), w).

End iptables.

(** ** Package [routed]: drivers/routed/netfilter.go *)

Definition containersChainName : string := "CONTAINERS".
Definition containerRejectChainName : string := "CONTAINER-REJECT".
Definition vethChainPrefix : string := "CONTAINER-".

(** IPRange range of ip addresses used to filter *)
Record IPRange := { from : net.IP; to : net.IP }.

(** ParseIPRange parses the given string into an IPRange *)
Definition ParseIPRange (ipRange : string) : option IPRange :=
  let ipStrs := strings.Split ipRange "-" in
  if (length ipStrs =? 2)%nat then
    let ips := map (fun ipStr => net.ParseIP (strings.TrimSpace ipStr)) ipStrs in
    match ips with
    | [Some ip0; Some ip1] => Some {| from := ip0; to := ip1 |}
    | _ => None
    end
  else None.

Definition IPRange_String (r : IPRange) : string :=
  net.IP_String (from r) +:+ "-" +:+ net.IP_String (to r).

Record netFilterConfig := {
  allowedNets : list net.IPNet;
  allowedRanges : list IPRange
}.

Record netFilter := {
  ifaceName : string;
  config : option netFilterConfig
}.

(** ParseIPOrNet parses the given string into an IPNet *)
Definition ParseIPOrNet (ipStr : string) : option net.IPNet :=
  let ipStr := if negb (strings.Contains ipStr "/") then ipStr +:+ "/32" else ipStr in
  match net.ParseCIDR ipStr with
  | Some (_, ipNet) => Some ipNet
  | None => None
  end.

(** The loop of [NetFilterConfigParse] over the pieces of the string. *)
Fixpoint NetFilterConfigParse_loop (config : netFilterConfig) (elements : list string)
  : option netFilterConfig * option error :=
  match elements with
  | [] => (Some config, None)
  | filterElement :: elements' =>
      let filterElement := strings.TrimSpace filterElement in
      match ParseIPOrNet filterElement with
      | None =>
          match ParseIPRange filterElement with
          | Some ipRange =>
              NetFilterConfigParse_loop
                {| allowedNets := allowedNets config;
                   allowedRanges := allowedRanges config ++ [ipRange] |}
                elements'
          | None =>
              (None,
               Some ("NetFilter: Could not parse IP, CIDR or IPRange " +:+ filterElement))
          end
      | Some ipNet =>
          NetFilterConfigParse_loop
            {| allowedNets := allowedNets config ++ [ipNet];
               allowedRanges := allowedRanges config |}
            elements'
      end
  end.

Definition NetFilterConfigParse (ingressAllowedString : string)
  : option netFilterConfig * option error :=
  if negb (String.eqb ingressAllowedString "") then
    NetFilterConfigParse_loop {| allowedNets := []; allowedRanges := [] |}
      (strings.Split ingressAllowedString ",")
  else (None, None).

(** *** The filter of an interface *)

(** A value held in an [interface{}]: its dynamic type and, for a
    [*netFilterConfig], the pointer itself (nil or not).  The nil interface
    value is [None] of [option dynamic]. *)
Inductive dynamic :=
| dyn_netFilterConfig (p : option netFilterConfig)
| dyn_string (s : string)
| dyn_other (type_name : string).

(** What a call gives: a value, or a run-time panic. *)
Inductive outcome (A : Type) :=
| Returned (a : A)
| Panicked (msg : string).
Arguments Returned {A} _.
Arguments Panicked {A} _.

(** The single-value type assertion of [v] to the pointer type
    [*netFilterConfig]. *)
Definition assert_netFilterConfig (v : option dynamic) : outcome (option netFilterConfig) :=
  let conversion t :=
    "interface conversion: interface {} is " +:+ t +:+ ", not *routed.netFilterConfig" in
  match v with
  | Some (dyn_netFilterConfig p) => Returned p
  | Some (dyn_string _) => Panicked (conversion "string")
  | Some (dyn_other t) => Panicked (conversion t)
  | None => Panicked (conversion "nil")
  end.

Section newNetFilter.

(** [netlabel.IngressAllowed], the key of the allowlist among the options
    of an endpoint; its declaration is not among the sources. *)
Variable IngressAllowed : string.

(** A [map[string]interface{}]; reading a key that is absent (or reading
    the nil map, which is the empty map here) gives the nil interface
    value. *)
Definition newNetFilter (ifaceName : string) (epOptions : gmap string (option dynamic))
  : outcome netFilter :=
  match assert_netFilterConfig (default None (epOptions !! IngressAllowed)) with
  | Returned ingressFiltering =>
      Returned {| ifaceName := ifaceName; config := ingressFiltering |}
  | Panicked msg => Panicked msg
  end.

End newNetFilter.

(** *** Rules and their application *)

Record iptablesRules := { rules : list (list string) }.

(** [new(iptablesRules)] *)
Definition new_iptablesRules : iptablesRules := {| rules := [] |}.

Definition addRule (ipRules : iptablesRules) (args : list string) : iptablesRules :=
  {| rules := rules ipRules ++ [args] |}.

(** The rules [applyFiltering] collects before it applies any (the
    specification's [compile]). *)
Definition applyFiltering_rules (ifaceName : string) (config : netFilterConfig)
  : iptablesRules :=
  let vethChainName := vethChainPrefix +:+ ifaceName in
  let rules := new_iptablesRules in
  let rules := addRule rules ["-N"; vethChainName] in (* create veth specific chain *)
  (* Allow specified nets and ranges only *)
  let rules :=
    fold_left
      (fun rules ipNet =>
         addRule rules ["-A"; vethChainName; "-s"; net.IPNet_String ipNet; "-j"; "ACCEPT"])
      (allowedNets config) rules in
  let rules :=
    fold_left
      (fun rules ipRange =>
         addRule rules ["-A"; vethChainName; "-m"; "iprange"; "--src-range";
                        IPRange_String ipRange; "-j"; "ACCEPT"])
      (allowedRanges config) rules in
  let rules := addRule rules ["-A"; vethChainName; "-j"; "CONTAINER-REJECT"] in
  (* Add JUMP in CONTAINERS, send all traffic going to the veth interface *)
  addRule rules ["-I"; containersChainName; "1"; "-o"; ifaceName; "-j"; vethChainName].

(** The rules [removeFiltering] collects. *)
Definition removeFiltering_rules (ifaceName : string) : iptablesRules :=
  let vethChainName := vethChainPrefix +:+ ifaceName in
  let rules := new_iptablesRules in
  let rules := addRule rules ["-D"; containersChainName; "-o"; ifaceName; "-j"; vethChainName] in
  let rules := addRule rules ["-F"; vethChainName] in
  addRule rules ["-X"; vethChainName].

Declare Scope go_scope.
Delimit Scope go_scope with go.

Section filtering.

Context {St : Type} `{!iptables.Backend St}.

(** Code that talks to the backend: a function of the world. *)
Definition M (A : Type) : Type := iptables.World St → A * iptables.World St.

Definition ret {A} (a : A) : M A := fun w => (a, w).
Definition bind {A B} (m : M A) (k : A → M B) : M B :=
  fun w => let '(a, w') := m w in k a w'.

Notation "x <- m ;; k" := (bind m (fun x => k))
  (at level 100, m at next level, right associativity) : go_scope.
Local Open Scope go_scope.

Definition applyIPTablesRule (args : list string) : M (option error) :=
  res <- iptables.Raw args ;;
  let '(output, err) := res in
  match err with
  | Some err =>
      ret (Some ("NetFilter. IP tables apply rule failed " +:+ fmt.verb_s_slice args
                 +:+ " " +:+ output +:+ " " +:+ err))
  | None => ret None
  end.

(** The loop of [iptablesRules.apply]. *)
Fixpoint apply_loop (rules : list (list string)) : M (option error) :=
  match rules with
  | [] => ret None
  | rule :: rules' =>
      err <- applyIPTablesRule rule ;;
      match err with
      | Some err => ret (Some err)
      | None => apply_loop rules'
      end
  end.

Definition iptablesRules_apply (ipRules : iptablesRules) : M (option error) :=
  apply_loop (rules ipRules).

Definition chainExists (chainName : string) : M bool :=
  iptables.ExistChain chainName iptables.Filter.

(** The loop of [applyFiltering] that verifies the expected chains. *)
Fixpoint verify_chains (chainNames : list string) : M (option error) :=
  match chainNames with
  | [] => ret None
  | chainName :: chainNames' =>
      found <- chainExists chainName ;;
      if negb found
      then ret (Some ("Expected iptables chain not found: " +:+ chainName))
      else verify_chains chainNames'
  end.

Definition applyFiltering (n : netFilter) : M (option error) :=
  match config n with
  | None => ret None (* Net Filtering disabled *)
  | Some config =>
      (* Verify expected chains "CONTAINERS" and "CONTAINER-REJECT" exist *)
      err <- verify_chains [containersChainName; containerRejectChainName] ;;
      match err with
      | Some err => ret (Some err)
      | None =>
          let rules := applyFiltering_rules (ifaceName n) config in
          err <- iptablesRules_apply rules ;;
          match err with
          | Some err => ret (Some err)
          | None => ret None
          end
      end
  end.

Definition removeFiltering (n : netFilter) : M (option error) :=
  match config n with
  | None => ret None
  | Some _ => iptablesRules_apply (removeFiltering_rules (ifaceName n))
  end.

End filtering.

(** ** A backend: the chains of the filter table *)

Module filter_table.

(** Modelled from the spec: the packet-filtering subsystem that executes the
    commands is not among the sources.  A chain is a named, ordered list of
    rules and a rule is its list of arguments; the state is the map from
    the names of the chains of the filter table to their rules. *)
Abbreviation t := (gmap string (list (list string))) (only parsing).

Definition done_ (st : t) : (string * option error) * t := (("", None), st).

Definition failed (diagnostic : string) (st : t) : (string * option error) * t :=
  ((diagnostic, Some "exit status 1"), st).

(** A rule number, in decimal. *)
Definition rulenum (s : string) : option nat :=
  let '(n, c, ok) := net.dtoi s in
  if ok && (c =? len s)%nat then Some (Z.to_nat n) else None.

(** Delete the first rule equal to [r]. *)
Fixpoint delete_rule (r : list string) (rs : list (list string)) : list (list string) :=
  match rs with
  | [] => []
  | r' :: rs' => if bool_decide (r' = r) then rs' else r' :: delete_rule r rs'
  end.

(** Modelled from the spec: create (-N), flush (-F) and delete (-X) a named
    chain; append a rule (-A); insert a rule at a given position, counted
    from 1 (-I); delete a rule by exact argument match (-D).  A command on a
    chain that does not exist fails, as do creating a chain that exists,
    deleting a rule that is not there and inserting beyond the end; a
    command that fails changes nothing. *)
Definition no_chain : string := "iptables: No chain/target/match by that name.".

Definition exec (args : list string) (st : t) : (string * option error) * t :=
  match args with
  | flag :: chain :: rest =>
      if String.eqb flag "-N" then
        match rest, st !! chain with
        | [], None => done_ (<[chain := []]> st)
        | [], Some _ => failed "iptables: Chain already exists." st
        | _, _ => failed "iptables: bad argument" st
        end
      else if String.eqb flag "-F" then
        match rest, st !! chain with
        | [], Some _ => done_ (<[chain := []]> st)
        | [], None => failed no_chain st
        | _, _ => failed "iptables: bad argument" st
        end
      else if String.eqb flag "-X" then
        match rest, st !! chain with
        | [], Some _ => done_ (delete chain st)
        | [], None => failed no_chain st
        | _, _ => failed "iptables: bad argument" st
        end
      else if String.eqb flag "-A" then
        match st !! chain with
        | Some rs => done_ (<[chain := rs ++ [rest]]> st)
        | None => failed no_chain st
        end
      else if String.eqb flag "-I" then
        let '(pos, rule) :=
          match rest with
          | p :: rule =>
              match rulenum p with
              | Some pos => (pos, rule)
              | None => (1%nat, rest)
              end
          | [] => (1%nat, rest)
          end in
        match st !! chain with
        | Some rs =>
            if (1 <=? pos)%nat && (pos <=? length rs + 1)%nat
            then done_ (<[chain := take (pos - 1) rs ++ rule :: drop (pos - 1) rs]> st)
            else failed "iptables: Index of insertion too big." st
        | None => failed no_chain st
        end
      else if String.eqb flag "-D" then
        match st !! chain with
        | Some rs =>
            if bool_decide (rest ∈ rs)
            then done_ (<[chain := delete_rule rest rs]> st)
            else failed "iptables: Bad rule (does a matching rule exist in that chain?)." st
        | None => failed no_chain st
        end
      else failed "iptables: unknown command" st
  | _ => failed "iptables: no command specified" st
  end.

(** The "chain exists" query; the state holds the filter table only. *)
Definition has_chain (chain : string) (table : iptables.Table) (st : t) : bool :=
  match table with
  | iptables.Filter => bool_decide (is_Some (st !! chain))
  | _ => false
  end.

#[global] Instance backend : iptables.Backend t :=
  {| iptables.execute := exec; iptables.chain_exists := has_chain |}.

(** A filter table with the two base chains and one rule of another
    interface. *)
Definition base : t :=
  <["CONTAINERS" := [["-o"; "veth0"; "-j"; "CONTAINER-veth0"]]]>
    (<["CONTAINER-REJECT" := [["-j"; "REJECT"]]]>
       (<["CONTAINER-veth0" := [["-j"; "CONTAINER-REJECT"]]]> ∅)).

Definition world (st : t) : iptables.World t :=
  {| iptables.backend := st; iptables.executed := [] |}.

End filter_table.

(** The filter of interface veth1 that allows 10.0.0.1 and 10.0.0.2. *)
Definition allowlist_ex : netFilterConfig :=
  {| allowedNets :=
       [{| net.IPNet_IP := [10; 0; 0; 1]; net.IPNet_Mask := [255; 255; 255; 255] |};
        {| net.IPNet_IP := [10; 0; 0; 2]; net.IPNet_Mask := [255; 255; 255; 255] |}];
     allowedRanges := [] |}.

Definition filter_ex : netFilter :=
  {| ifaceName := "veth1"; config := Some allowlist_ex |}.

(** ** Notions of the specification *)

(** A token that parses neither as a CIDR or bare address nor as an address
    range. *)
Definition unparsable (token : string) : Prop :=
  ParseIPOrNet (strings.TrimSpace token) = None
  ∧ ParseIPRange (strings.TrimSpace token) = None.

(** The values of a byte. *)
Definition octet (b : Z) : Prop := 0 ≤ b < 256.

(** The run of zero groups [IP.String] looks for: none, (-1, -1), or a run
    that is not empty. *)
Definition run_bounds (e0 e1 : Z) : Prop := (e0 = -1 ∧ e1 = -1) ∨ 0 ≤ e0 < e1.

(** A host route: the network of the full-length prefix that holds the one
    address [ip] (in its 4-byte form for IPv4, its 16-byte form for IPv6). *)
Definition host_route (ip : net.IP) (n : net.IPNet) : Prop :=
  net.IPNet_IP n = ip ∧ net.IPNet_Mask n = replicate (length ip) 0xff.

Section sequences.

Context {St : Type} `{!iptables.Backend St}.

(** The state of the backend after it has executed the operations [ops]
    one after the other. *)
Definition execute_all (ops : list (list string)) (st : St) : St :=
  fold_left (fun st op => snd (iptables.execute op st)) ops st.

(** Every operation of [ops] succeeds when the backend executes them one
    after the other, from the state [st] on. *)
Fixpoint all_succeed (ops : list (list string)) (st : St) : Prop :=
  match ops with
  | [] => True
  | op :: ops' =>
      snd (fst (iptables.execute op st)) = None
      ∧ all_succeed ops' (snd (iptables.execute op st))
  end.

(** The error [applyIPTablesRule] makes of a failed operation. *)
Definition rule_failed (op : list string) (output : string) (err : error) : error :=
  "NetFilter. IP tables apply rule failed " +:+ fmt.verb_s_slice op
    +:+ " " +:+ output +:+ " " +:+ err.

End sequences.

(** The operations [ops] all work on the chain [chain]. *)
Definition all_on (chain : string) (ops : list (list string)) : Prop :=
  Forall (fun op => ∃ flag rest, op = flag :: chain :: rest) ops.

(** The networks and the ranges among the pieces of an allowlist string:
    a piece is a network when [ParseIPOrNet] takes it, and a range when
    [ParseIPOrNet] does not and [ParseIPRange] does. *)
Definition nets_of (elements : list string) : list net.IPNet :=
  omap (fun element => ParseIPOrNet (strings.TrimSpace element)) elements.

Definition ranges_of (elements : list string) : list IPRange :=
  omap (fun element =>
          match ParseIPOrNet (strings.TrimSpace element) with
          | Some _ => None
          | None => ParseIPRange (strings.TrimSpace element)
          end) elements.

(** A network as [net.ParseCIDR] makes them: an address of 4 or of 16
    bytes, the mask of a prefix length of as many bytes, and no bit of the
    address outside the mask. *)
Definition canonical_net (n : net.IPNet) : Prop :=
  ∃ ones bits : Z,
    (bits = 32 ∨ bits = 128) ∧ 0 ≤ ones ≤ bits
    ∧ net.IPNet_Mask n = net.CIDRMask ones bits
    ∧ Z.of_nat (length (net.IPNet_IP n)) = bits / 8
    ∧ Z.of_nat (length (net.IPNet_Mask n)) = bits / 8
    ∧ zip_with Z.land (net.IPNet_IP n) (net.IPNet_Mask n) = net.IPNet_IP n.

(** The operations [ops] all succeed from the state [st] of the backend
    on, one after the other, and leave it in the state [st']. *)
Definition runs {St : Type} `{!iptables.Backend St}
    (ops : list (list string)) (st st' : St) : Prop :=
  all_succeed ops st ∧ execute_all ops st = st'.

(** No operation of [ops] works on the chain [chain]. *)
Definition none_on (chain : string) (ops : list (list string)) : Prop :=
  Forall (fun op => ∃ flag other rest, op = flag :: other :: rest ∧ other ≠ chain) ops.

(** The rules of the chain of an interface once its filter is applied:
    the rules of the program of [applyFiltering] that are appended to it,
    without the command and the chain. *)
Definition chain_rules (allowlist : netFilterConfig) : list (list string) :=
  map (fun ipNet => ["-s"; net.IPNet_String ipNet; "-j"; "ACCEPT"]) (allowedNets allowlist)
  ++ map (fun ipRange => ["-m"; "iprange"; "--src-range"; IPRange_String ipRange;
                          "-j"; "ACCEPT"])
       (allowedRanges allowlist)
  ++ [["-j"; "CONTAINER-REJECT"]].

(** Strings of decimal digits, and strings that do not go on with one. *)
Definition all_digits (s : string) : bool :=
  forallb (net.between "0" "9") (list_ascii_of_string s).

Definition no_digit_ahead (s : string) : Prop :=
  match s with
  | EmptyString => True
  | String c _ => net.between "0" "9" c = false
  end.

(** * Properties *)

(** ** The models at work *)

Example Split_ex1 :
  strings.Split "10.0.0.0/24, 192.168.1.1-192.168.1.10" ","
  = ["10.0.0.0/24"; " 192.168.1.1-192.168.1.10"].
Proof. reflexivity. Qed.

Example Split_ex2 : strings.Split "" "," = [""] ∧ strings.Split "a,,b," "," = ["a"; ""; "b"; ""].
Proof. split; reflexivity. Qed.

Example Split_ex3 : strings.Split "a--b-" "--" = ["a"; "b-"].
Proof. reflexivity. Qed.

Example TrimSpace_ex1 : strings.TrimSpace "  10.0.0.1 	" = "10.0.0.1".
Proof. reflexivity. Qed.

Example TrimSpace_ex2 :
  strings.TrimSpace (of_bytes [0xC2; 0xA0; 0x31; 0x20; 0x32; 0xE2; 0x80; 0x83; 0x0A])
  = "1 2".
Proof. vm_compute. reflexivity. Qed.

Example parseIPv4_ex : net.parseIPv4 "10.0.0.1" = Some (net.IPv4 10 0 0 1)
  ∧ net.parseIPv4 "10.0.0" = None ∧ net.parseIPv4 "10.0.0.256" = None
  ∧ net.parseIPv4 "10.0.0.1." = None ∧ net.parseIPv4 "" = None.
Proof. vm_compute. repeat split. Qed.

Example parseIPv6_ex :
  net.parseIPv6 "2001:db8::1"
    = Some [0x20; 0x01; 0x0d; 0xb8; 0; 0; 0; 0; 0; 0; 0; 0; 0; 0; 0; 1]
  ∧ net.parseIPv6 "::" = Some (replicate 16 0)
  ∧ net.parseIPv6 "::ffff:10.0.0.1" = Some (net.IPv4 10 0 0 1)
  ∧ net.parseIPv6 "1:2:3:4:5:6:7:8" = Some [0;1;0;2;0;3;0;4;0;5;0;6;0;7;0;8]
  ∧ net.parseIPv6 "1:2:3:4:5:6:7::8" = None
  ∧ net.parseIPv6 "1::2::3" = None
  ∧ net.parseIPv6 "1:2:3" = None
  ∧ net.parseIPv6 "fe80::" = Some [0xfe; 0x80; 0;0;0;0;0;0;0;0;0;0;0;0;0;0].
Proof. vm_compute. repeat split. Qed.

Example ParseCIDR_ex :
  net.ParseCIDR "10.0.0.0/24"
    = Some (net.IPv4 10 0 0 0,
            {| net.IPNet_IP := [10; 0; 0; 0]; net.IPNet_Mask := [255; 255; 255; 0] |})
  ∧ net.ParseCIDR "10.0.0.77/20"
    = Some (net.IPv4 10 0 0 77,
            {| net.IPNet_IP := [10; 0; 0; 0]; net.IPNet_Mask := [255; 255; 240; 0] |})
  ∧ net.ParseCIDR "10.0.0.0/33" = None
  ∧ net.ParseCIDR "10.0.0.0" = None
  ∧ net.ParseCIDR "10.0.0.0/" = None
  ∧ net.ParseCIDR "10.0.0.0/8x" = None.
Proof. vm_compute. repeat split. Qed.

Example IP_String_ex :
  net.IP_String (net.IPv4 192 168 1 10) = "192.168.1.10"
  ∧ net.IP_String [10; 0; 0; 0] = "10.0.0.0"
  ∧ net.IP_String [0x20; 0x01; 0x0d; 0xb8; 0; 0; 0; 0; 0; 0; 0; 0; 0; 0; 0; 1] = "2001:db8::1"
  ∧ net.IP_String (replicate 16 0) = "::"
  ∧ net.IP_String [0;1;0;0;0;0;0;4;0;0;0;0;0;0;0;8] = "1:0:0:4::8"
  ∧ net.IP_String [0;1;0;2;0;0;0;4;0;5;0;6;0;7;0;8] = "1:2:0:4:5:6:7:8"
  ∧ net.IP_String [0xfe; 0x80; 0;0;0;0;0;0;0;0;0;0;0;0;0;0] = "fe80::".
Proof. vm_compute. repeat split. Qed.

Example IPNet_String_ex :
  net.IPNet_String {| net.IPNet_IP := [10; 0; 0; 0]; net.IPNet_Mask := [255; 255; 240; 0] |}
    = "10.0.0.0/20"
  ∧ net.IPNet_String {| net.IPNet_IP := [10; 0; 0; 1]; net.IPNet_Mask := [255; 255; 255; 255] |}
    = "10.0.0.1/32"
  ∧ net.IPNet_String {| net.IPNet_IP := [10; 0; 0; 1]; net.IPNet_Mask := [255; 0; 255; 0] |}
    = "10.0.0.1/ff00ff00"
  ∧ net.IPNet_String {| net.IPNet_IP := [10; 0; 0]; net.IPNet_Mask := [255; 0; 255; 0] |}
    = "<nil>".
Proof. vm_compute. repeat split. Qed.

Example parse_ex1 :
  NetFilterConfigParse "10.0.0.0/24, 192.168.1.1-192.168.1.10"
  = (Some {| allowedNets :=
               [{| net.IPNet_IP := [10; 0; 0; 0]; net.IPNet_Mask := [255; 255; 255; 0] |}];
             allowedRanges :=
               [{| from := net.IPv4 192 168 1 1; to := net.IPv4 192 168 1 10 |}] |},
     None).
Proof. vm_compute. reflexivity. Qed.

Example parse_ex2 :
  NetFilterConfigParse "not-an-address"
  = (None, Some "NetFilter: Could not parse IP, CIDR or IPRange not-an-address").
Proof. vm_compute. reflexivity. Qed.

Example parse_ex3 :
  NetFilterConfigParse "10.0.0.1, ,10.0.0.2"
  = (None, Some "NetFilter: Could not parse IP, CIDR or IPRange ").
Proof. vm_compute. reflexivity. Qed.

Example allowlist_ex_parsed :
  NetFilterConfigParse "10.0.0.1, 10.0.0.2" = (Some allowlist_ex, None).
Proof. vm_compute. reflexivity. Qed.

Example applyFiltering_ex :
  applyFiltering filter_ex (filter_table.world filter_table.base)
  = (None,
     {| iptables.backend :=
          <["CONTAINER-veth1" :=
              [["-s"; "10.0.0.1/32"; "-j"; "ACCEPT"];
               ["-s"; "10.0.0.2/32"; "-j"; "ACCEPT"];
               ["-j"; "CONTAINER-REJECT"]]]>
            (<["CONTAINERS" :=
                 [["-o"; "veth1"; "-j"; "CONTAINER-veth1"];
                  ["-o"; "veth0"; "-j"; "CONTAINER-veth0"]]]> filter_table.base);
        iptables.executed :=
          [["-N"; "CONTAINER-veth1"];
           ["-A"; "CONTAINER-veth1"; "-s"; "10.0.0.1/32"; "-j"; "ACCEPT"];
           ["-A"; "CONTAINER-veth1"; "-s"; "10.0.0.2/32"; "-j"; "ACCEPT"];
           ["-A"; "CONTAINER-veth1"; "-j"; "CONTAINER-REJECT"];
           ["-I"; "CONTAINERS"; "1"; "-o"; "veth1"; "-j"; "CONTAINER-veth1"]] |}).
Proof. vm_compute. reflexivity. Qed.

(** ** The loops of the library models run to their end *)

(** A round of the loop of [parseIPv6] that continues has added 2 to [i]. *)
Lemma parseIPv6_body_continue st st' :
  net.parseIPv6_body st = net.v6_continue st' →
  net.v6_i st' = (net.v6_i st + 2)%nat.
Proof.
  unfold net.parseIPv6_body.
  destruct (net.xtoi _) as [[n c] ok].
  repeat (case_match; simpl; try done); by intros [= <-].
Qed.

(** So more rounds than the loop of [parseIPv6] is given make no
    difference: it never stops for want of them. *)
Lemma parseIPv6_loop_fuel fuel :
  ∀ st fuel',
    (net.IPv6len < net.v6_i st + 2 * fuel)%nat → (fuel ≤ fuel')%nat →
    net.parseIPv6_loop fuel' st = net.parseIPv6_loop fuel st.
Proof.
  induction fuel as [|fuel IH]; intros st fuel' Hi Hfuel.
  - assert ((net.v6_i st <? net.IPv6len)%nat = false) as Hcond
      by (apply Nat.ltb_ge; lia).
    destruct fuel'; simpl; by rewrite Hcond.
  - destruct fuel' as [|fuel']; [lia|]. simpl.
    destruct (net.v6_i st <? net.IPv6len)%nat; [|done].
    destruct (net.parseIPv6_body st) as [|st'|st'] eqn:Hbody; [done..|].
    apply parseIPv6_body_continue in Hbody. apply IH; lia.
Qed.

Lemma parseIPv6_loop_enough ip s ellipsis (more : nat) :
  let st := {| net.v6_ip := ip; net.v6_i := O; net.v6_s := s;
               net.v6_ellipsis := ellipsis |} in
  net.parseIPv6_loop (S net.IPv6len + more) st = net.parseIPv6_loop (S net.IPv6len) st.
Proof. intros st. apply parseIPv6_loop_fuel; simpl; unfold net.IPv6len; lia. Qed.

Lemma CutPrefix_len prefix :
  ∀ s rest, strings.CutPrefix s prefix = Some rest → len s = (len prefix + len rest)%nat.
Proof.
  induction prefix as [|p prefix IH]; intros s rest.
  - destruct s; simpl; by intros [= <-].
  - destruct s as [|c s]; simpl; [done|].
    destruct (Ascii.eqb c p); [|done].
    intros Hrest%IH. by rewrite Hrest.
Qed.

Lemma cut_space_len enc s rest :
  Forall (fun e => e ≠ "") enc →
  strings.cut_space enc s = Some rest → (len rest < len s)%nat.
Proof.
  induction 1 as [|e enc He _ IH]; simpl; [done|].
  destruct (strings.CutPrefix s e) as [rest'|] eqn:E; [|exact IH].
  intros [= ->]. apply CutPrefix_len in E. destruct e; [done|]. simpl in E. lia.
Qed.

(** With [len s] rounds the trimming loop ends on a string without a
    leading white-space rune. *)
Lemma trim_go_end enc fuel :
  Forall (fun e => e ≠ "") enc →
  ∀ s, (len s ≤ fuel)%nat → strings.cut_space enc (strings.trim_go enc fuel s) = None.
Proof.
  intros Henc. induction fuel as [|fuel IH]; intros s Hlen; simpl.
  - destruct (strings.cut_space enc s) as [rest|] eqn:E; [|done].
    apply cut_space_len in E; [lia|done].
  - destruct (strings.cut_space enc s) as [rest|] eqn:E; [|done].
    apply IH. apply cut_space_len in E; [lia|done].
Qed.

Lemma TrimRight_end s :
  strings.cut_space (map (fun r => String.rev (strings.utf8 r)) strings.White_Space)
    (String.rev (strings.TrimRight s)) = None.
Proof.
  unfold strings.TrimRight.
  set (enc := map _ strings.White_Space).
  assert (∀ x, String.rev (String.rev x) = x) as Hrev.
  { assert (∀ x y, String.rev (String.rev_app x y) = String.rev_app y x) as Happ.
    { induction x as [|c x IH]; intros y; simpl; [done|]. by rewrite IH. }
    intros x. apply Happ. }
  rewrite Hrev. apply trim_go_end.
  - vm_compute. repeat constructor; discriminate.
  - clear. assert (∀ x y, len (String.rev_app x y) = (len x + len y)%nat) as Hlen.
    { induction x as [|c x IH]; intros y; simpl; [done|]. rewrite IH. simpl. lia. }
    unfold String.rev. rewrite Hlen. simpl. lia.
Qed.

Lemma TrimLeft_end s :
  strings.cut_space (map strings.utf8 strings.White_Space) (strings.TrimLeft s) = None.
Proof.
  apply trim_go_end; [|done].
  vm_compute. repeat constructor; discriminate.
Qed.

(** The loops of [IP.String] step through the eight groups; eight rounds
    are as good as any larger number. *)
Lemma zero_run_fuel fuel :
  ∀ p j fuel',
    (net.IPv6len ≤ j + 2 * fuel)%nat → (fuel ≤ fuel')%nat →
    net.zero_run fuel' p j = net.zero_run fuel p j.
Proof.
  induction fuel as [|fuel IH]; intros p j fuel' Hj Hfuel.
  - assert ((j <? net.IPv6len)%nat = false) as Hcond by (apply Nat.ltb_ge; lia).
    destruct fuel'; simpl; by rewrite ?Hcond.
  - destruct fuel' as [|fuel']; [lia|]. simpl.
    destruct (_ && _); [|done]. apply IH; lia.
Qed.

Lemma zero_run_ge fuel : ∀ p j, (j ≤ net.zero_run fuel p j)%nat.
Proof.
  induction fuel as [|fuel IH]; intros p j; simpl; [done|].
  destruct (_ && _); [|done]. specialize (IH p (j + 2)%nat). lia.
Qed.

Lemma longest_run_fuel fuel :
  ∀ p i e0 e1 fuel',
    (net.IPv6len ≤ i + 2 * fuel)%nat → (fuel ≤ fuel')%nat →
    net.longest_run fuel' p i e0 e1 = net.longest_run fuel p i e0 e1.
Proof.
  induction fuel as [|fuel IH]; intros p i e0 e1 fuel' Hi Hfuel.
  - assert ((i <? net.IPv6len)%nat = false) as Hcond by (apply Nat.ltb_ge; lia).
    destruct fuel'; simpl; by rewrite ?Hcond.
  - destruct fuel' as [|fuel']; [lia|]. cbn [net.longest_run].
    destruct (i <? net.IPv6len)%nat; [|done].
    pose proof (zero_run_ge 8 p i).
    destruct (_ && _); apply IH; lia.
Qed.

Lemma longest_run_bounds fuel :
  ∀ p i e0 e1,
    run_bounds e0 e1 →
    run_bounds (net.longest_run fuel p i e0 e1).1 (net.longest_run fuel p i e0 e1).2.
Proof.
  induction fuel as [|fuel IH]; intros p i e0 e1 Hrun; cbn [net.longest_run]; [done|].
  destruct (i <? net.IPv6len)%nat; [|done].
  destruct ((i <? _)%nat && _) eqn:E; apply IH; [|done].
  apply andb_true_iff in E as [E _]. apply Nat.ltb_lt in E.
  right. lia.
Qed.

Lemma print_groups_fuel fuel :
  ∀ p e0 e1 i b fuel',
    e0 < 0 ∨ e0 < e1 →
    (net.IPv6len ≤ i + 2 * fuel)%nat → (fuel ≤ fuel')%nat →
    net.print_groups fuel' p e0 e1 i b = net.print_groups fuel p e0 e1 i b.
Proof.
  induction fuel as [|fuel IH]; intros p e0 e1 i b fuel' Hrun Hi Hfuel.
  - assert ((i <? net.IPv6len)%nat = false) as Hcond by (apply Nat.ltb_ge; lia).
    destruct fuel'; simpl; by rewrite ?Hcond.
  - destruct fuel' as [|fuel']; [lia|]. cbn [net.print_groups].
    destruct (i <? net.IPv6len)%nat; [|done].
    destruct (Z.of_nat i =? e0) eqn:E.
    + apply Z.eqb_eq in E.
      destruct (net.IPv6len <=? Z.to_nat e1)%nat; [done|]. apply IH; lia.
    + apply IH; lia.
Qed.

(** Eight shifts empty a byte: the loop of [simpleMaskLength] that counts
    the leading ones stops by itself. *)
Lemma count_ones_end (v : Z) :
  octet v → Z.land (net.count_ones 8 v 0).1 0x80 = 0.
Proof.
  intros Hv.
  assert (forallb (fun v => Z.land (net.count_ones 8 v 0).1 0x80 =? 0)
            (map Z.of_nat (seq 0 256)) = true) as Hall by (vm_compute; reflexivity).
  rewrite forallb_forall in Hall.
  apply Z.eqb_eq, Hall, in_map_iff.
  exists (Z.to_nat v). split; [unfold octet in Hv; lia|].
  apply in_seq. unfold octet in Hv. lia.
Qed.

(** ** The parser *)

Lemma Split_go_nonempty sep skip cur s : strings.Split_go sep skip cur s ≠ [].
Proof.
  revert skip cur; induction s as [|c s IH]; intros skip cur; simpl; [done|].
  destruct skip; [|apply IH].
  destruct (_ && _); [done|apply IH].
Qed.

Lemma Split_nonempty s sep : strings.Split s sep ≠ [].
Proof. apply Split_go_nonempty. Qed.

(** The loop either fails on an element, with no configuration, or takes
    every element, each into one of the two lists. *)
Lemma NetFilterConfigParse_loop_count elements :
  ∀ config0 config,
    NetFilterConfigParse_loop config0 elements = (Some config, None) →
    (length (allowedNets config) + length (allowedRanges config)
     = length (allowedNets config0) + length (allowedRanges config0)
       + length elements)%nat.
Proof.
  induction elements as [|e elements IH]; intros config0 config; simpl.
  - intros [= <-]. lia.
  - destruct (ParseIPOrNet _) as [ipNet|].
    + intros H%IH. simpl in H. rewrite length_app in H. simpl in H. lia.
    + destruct (ParseIPRange _) as [ipRange|]; [|done].
      intros H%IH. simpl in H. rewrite length_app in H. simpl in H. lia.
Qed.

Lemma NetFilterConfigParse_loop_shape elements :
  ∀ config0,
    (∃ config, NetFilterConfigParse_loop config0 elements = (Some config, None))
    ∨ (∃ msg, NetFilterConfigParse_loop config0 elements = (None, Some msg)).
Proof.
  induction elements as [|e elements IH]; intros config0; simpl.
  - left. by eexists.
  - destruct (ParseIPOrNet _); [apply IH|].
    destruct (ParseIPRange _); [apply IH|]. right. by eexists.
Qed.

Lemma NetFilterConfigParse_loop_first_bad pre bad post :
  Forall (fun token => ¬ unparsable token) pre →
  unparsable bad →
  ∀ config0,
    NetFilterConfigParse_loop config0 (pre ++ bad :: post)
    = (None, Some ("NetFilter: Could not parse IP, CIDR or IPRange "
                   +:+ strings.TrimSpace bad)).
Proof.
  intros Hpre [Hnet Hrange].
  induction Hpre as [|e pre He _ IH]; intros config0; simpl.
  - by rewrite Hnet, Hrange.
  - destruct (ParseIPOrNet (strings.TrimSpace e)) eqn:E1; [apply IH|].
    destruct (ParseIPRange (strings.TrimSpace e)) eqn:E2; [apply IH|].
    destruct He. by split.
Qed.

#[local] Instance unparsable_dec token : Decision (unparsable token).
Proof. unfold unparsable. apply _. Defined.

(** A list with an unparsable token splits at its first one. *)
Lemma first_unparsable tokens token :
  token ∈ tokens → unparsable token →
  ∃ pre bad post,
    tokens = pre ++ bad :: post
    ∧ Forall (fun token => ¬ unparsable token) pre ∧ unparsable bad.
Proof.
  induction tokens as [|e tokens IH]; intros Hin Hbad.
  - by apply elem_of_nil in Hin.
  - destruct (decide (unparsable e)) as [He|He].
    + exists [], e, tokens. split; [done|]. split; [constructor|done].
    + apply elem_of_cons in Hin as [->|Hin]; [done|].
      destruct (IH Hin Hbad) as (pre & bad & post & -> & Hpre & Hb).
      exists (e :: pre), bad, post. split; [done|]. split; [by constructor|done].
Qed.

Lemma NetFilterConfigParse_nonempty s :
  s ≠ "" →
  NetFilterConfigParse s
  = NetFilterConfigParse_loop {| allowedNets := []; allowedRanges := [] |}
      (strings.Split s ",").
Proof.
  intros Hs. unfold NetFilterConfigParse.
  destruct (String.eqb s "") eqn:E; [|done].
  by apply String.eqb_eq in E.
Qed.

(** C4.  When a non-empty input string has a token (a piece between commas)
    that parses neither as a CIDR or bare address nor as an address range,
    [NetFilterConfigParse] returns no configuration at all, and an error
    whose message ends with the first such token, trimmed.  (The empty
    string has no token: it is the case of C5.) *)
Theorem NetFilterConfigParse_all_or_nothing (s token : string) :
  s ≠ "" →
  token ∈ strings.Split s "," →
  unparsable token →
  ∃ pre bad post,
    strings.Split s "," = pre ++ bad :: post
    ∧ Forall (fun token => ¬ unparsable token) pre
    ∧ unparsable bad
    ∧ NetFilterConfigParse s
      = (None, Some ("NetFilter: Could not parse IP, CIDR or IPRange "
                     +:+ strings.TrimSpace bad)).
Proof.
  intros Hs Hin Hbad.
  destruct (first_unparsable _ _ Hin Hbad) as (pre & bad & post & Hsplit & Hpre & Hb).
  exists pre, bad, post. do 3 (split; [done|]).
  rewrite NetFilterConfigParse_nonempty by done.
  rewrite Hsplit. by apply NetFilterConfigParse_loop_first_bad.
Qed.

Lemma NetFilterConfigParse_all_or_nothing_witness :
  "10.0.0.1, 10.0.0.x ,nope" ≠ ""
  ∧ "nope" ∈ strings.Split "10.0.0.1, 10.0.0.x ,nope" ","
  ∧ unparsable "nope"
  ∧ ∃ pre bad post,
      strings.Split "10.0.0.1, 10.0.0.x ,nope" "," = pre ++ bad :: post
      ∧ Forall (fun token => ¬ unparsable token) pre
      ∧ unparsable bad
      ∧ NetFilterConfigParse "10.0.0.1, 10.0.0.x ,nope"
        = (None, Some ("NetFilter: Could not parse IP, CIDR or IPRange "
                       +:+ strings.TrimSpace bad)).
Proof.
  assert ("10.0.0.1, 10.0.0.x ,nope" ≠ "") as Hs by discriminate.
  assert ("nope" ∈ strings.Split "10.0.0.1, 10.0.0.x ,nope" ",") as Hin
    by (vm_compute; right; right; left).
  assert (unparsable "nope") as Hbad by (vm_compute; split; reflexivity).
  do 3 (split; [assumption|]).
  exact (NetFilterConfigParse_all_or_nothing _ _ Hs Hin Hbad).
Defined.

(** C5.  On the empty string [NetFilterConfigParse] returns the nil
    configuration and the nil error; the nil configuration is not the
    configuration with two empty lists, and a filter that carries it has
    filtering disabled: applying it asks nothing of the backend. *)
Theorem NetFilterConfigParse_empty :
  NetFilterConfigParse "" = (None, None)
  ∧ fst (NetFilterConfigParse "") ≠ Some {| allowedNets := []; allowedRanges := [] |}
  ∧ ∀ St (B : iptables.Backend St) ifaceName (w : iptables.World St),
      applyFiltering {| ifaceName := ifaceName; config := fst (NetFilterConfigParse "") |} w
      = (None, w).
Proof. split; [reflexivity|]. split; [discriminate|]. reflexivity. Qed.

(** C10.  When [NetFilterConfigParse] succeeds on a non-empty string, the
    configuration it returns is present and holds as many networks and
    ranges together as the string has pieces between commas, so at least
    one: it is never the configuration with two empty lists. *)
Theorem NetFilterConfigParse_never_empty (s : string) :
  s ≠ "" →
  snd (NetFilterConfigParse s) = None →
  ∃ config,
    NetFilterConfigParse s = (Some config, None)
    ∧ (length (allowedNets config) + length (allowedRanges config)
       = length (strings.Split s ","))%nat
    ∧ (allowedNets config ≠ [] ∨ allowedRanges config ≠ []).
Proof.
  intros Hs Hok. rewrite NetFilterConfigParse_nonempty in * by done.
  destruct (NetFilterConfigParse_loop_shape (strings.Split s ",")
              {| allowedNets := []; allowedRanges := [] |}) as [[config H]|[msg H]];
    rewrite H in *; [|done].
  exists config. split; [done|].
  apply NetFilterConfigParse_loop_count in H. simpl in H.
  split; [done|].
  pose proof (Split_nonempty s ",") as Hne.
  destruct (strings.Split s ","); [done|].
  destruct (allowedNets config); [right|by left].
  destruct (allowedRanges config); [simpl in H; lia|done].
Qed.

Lemma NetFilterConfigParse_never_empty_witness :
  "10.0.0.0/24, 192.168.1.1-192.168.1.10" ≠ ""
  ∧ snd (NetFilterConfigParse "10.0.0.0/24, 192.168.1.1-192.168.1.10") = None
  ∧ ∃ config,
      NetFilterConfigParse "10.0.0.0/24, 192.168.1.1-192.168.1.10" = (Some config, None)
      ∧ (length (allowedNets config) + length (allowedRanges config)
         = length (strings.Split "10.0.0.0/24, 192.168.1.1-192.168.1.10" ","))%nat
      ∧ (allowedNets config ≠ [] ∨ allowedRanges config ≠ []).
Proof.
  assert ("10.0.0.0/24, 192.168.1.1-192.168.1.10" ≠ "") as Hs by discriminate.
  assert (snd (NetFilterConfigParse "10.0.0.0/24, 192.168.1.1-192.168.1.10") = None)
    as Hok by (vm_compute; reflexivity).
  do 2 (split; [assumption|]).
  exact (NetFilterConfigParse_never_empty _ Hs Hok).
Defined.

(** ** Bare addresses *)

Lemma parseIPv4_loop_octets todo :
  ∀ i s p p' s',
    net.parseIPv4_loop todo i s p = Some (p', s') →
    Forall octet p → Forall octet p'.
Proof.
  induction todo as [|todo IH]; intros i s p p' s'; simpl.
  - by intros [= <- <-].
  - destruct (len s =? 0)%nat; [done|].
    destruct (if (0 <? i)%nat then _ else _) as [s1|]; [|done].
    destruct (net.dtoi s1) as [[n c] ok].
    destruct (negb ok || (255 <? n)); [done|].
    intros H Hp. eapply IH; [exact H|].
    apply Forall_insert; [done|]. unfold octet. apply Z.mod_pos_bound. lia.
Qed.

Lemma parseIPv4_octets s ip :
  net.parseIPv4 s = Some ip →
  ∃ a b c d, ip = net.IPv4 a b c d ∧ octet a ∧ octet b ∧ octet c ∧ octet d.
Proof.
  unfold net.parseIPv4.
  destruct (net.parseIPv4_loop _ _ _ _) as [[p s']|] eqn:E; [|done].
  apply parseIPv4_loop_octets in E; [|repeat constructor; unfold octet; lia].
  destruct p as [|a [|b [|c [|d [|]]]]]; try done.
  destruct s'; [|done]. intros [= <-].
  exists a, b, c, d. split; [done|].
  by repeat (apply Forall_cons in E as [? E]).
Qed.

Lemma land_octet b : octet b → Z.land b 255 = b.
Proof.
  intros Hb. change 255 with (Z.ones 8).
  rewrite Z.land_ones by lia. apply Z.mod_small. exact Hb.
Qed.

Lemma byteIndex_bare s rest :
  strings.Contains s "/" = false →
  net.byteIndex (s +:+ String "/" rest) "/" = Some (len s).
Proof.
  induction s as [|c s IH]; simpl; [done|].
  destruct (Ascii.eqb c "/") eqn:E; simpl.
  - by destruct s.
  - intros H%IH. by rewrite H.
Qed.

Lemma slice_to_app s rest : net.slice_to (len s) (s +:+ rest) = s.
Proof.
  induction s as [|c s IH]; simpl; [by destruct rest|].
  f_equal. exact IH.
Qed.

Lemma slice_from_app s c rest : slice_from (S (len s)) (s +:+ String c rest) = rest.
Proof. induction s as [|c' s IH]; simpl; [done|exact IH]. Qed.

Lemma parseIPv6_body_length st :
  match net.parseIPv6_body st with
  | net.v6_fail => True
  | net.v6_break st' | net.v6_continue st' =>
      length (net.v6_ip st') = length (net.v6_ip st)
  end.
Proof.
  unfold net.parseIPv6_body.
  destruct (net.xtoi _) as [[n c] ok].
  repeat (case_match; simpl; try done); simplify_eq/=; by rewrite ?length_insert.
Qed.

Lemma parseIPv6_loop_length fuel :
  ∀ st st',
    net.parseIPv6_loop fuel st = Some st' →
    length (net.v6_ip st') = length (net.v6_ip st).
Proof.
  induction fuel as [|fuel IH]; intros st st'; simpl.
  - destruct (_ <? _)%nat; [done|]. by intros [= <-].
  - destruct (_ <? _)%nat; [|by intros [= <-]].
    pose proof (parseIPv6_body_length st) as Hbody.
    destruct (net.parseIPv6_body st) as [|st1|st1]; [done| |].
    + by intros [= <-].
    + intros H%IH. by rewrite H.
Qed.

Lemma fold_left_length {A B} (f : list A → B → list A) (js : list B) :
  (∀ l j, length (f l j) = length l) →
  ∀ l, length (fold_left f js l) = length l.
Proof.
  intros Hf. induction js as [|j js IH]; intros l; simpl; [done|].
  by rewrite IH, Hf.
Qed.

Lemma parseIPv6_length s ip : net.parseIPv6 s = Some ip → length ip = 16%nat.
Proof.
  unfold net.parseIPv6.
  destruct (match s with
            | String ":" (String ":" s') => _
            | _ => _
            end) as [[ellipsis s1] only].
  destruct only; [by intros [= <-]|].
  destruct (net.parseIPv6_loop _ _) as [st|] eqn:E; [|done].
  apply parseIPv6_loop_length in E. simpl in E.
  destruct (negb _); [done|].
  destruct (_ <? _)%nat.
  - destruct (net.v6_ellipsis st) as [e|]; [|done]. intros [= <-].
    rewrite !fold_left_length; [done|intros; apply length_insert..].
  - destruct (net.v6_ellipsis st); [done|]. by intros [= <-].
Qed.

Lemma IP_Mask_IPv6 (ip mask : list Z) :
  length ip = 16%nat → length mask = 16%nat →
  net.IP_Mask ip mask = zip_with Z.land ip mask.
Proof.
  intros Hip Hmask. unfold net.IP_Mask, net.IPv4len, net.IPv6len.
  do 3 (rewrite ?Hmask, ?Hip;
        change (16 =? 4)%nat with false; change (16 =? 16)%nat with true; cbn).
  reflexivity.
Qed.

(** What [ParseIPOrNet] makes of a token without '/': the /32 network of
    the address, which is the address itself for the four bytes of an IPv4
    address, but only the first four bytes of the sixteen of an IPv6
    address. *)
Lemma ParseIPOrNet_bare token :
  strings.Contains token "/" = false →
  ParseIPOrNet token
  = match net.parseIPv4 token with
    | Some ip =>
        Some {| net.IPNet_IP := drop 12 ip;
                net.IPNet_Mask := [255; 255; 255; 255] |}
    | None =>
        match net.parseIPv6 token with
        | Some ip =>
            Some {| net.IPNet_IP := zip_with Z.land ip (net.CIDRMask 32 128);
                    net.IPNet_Mask := net.CIDRMask 32 128 |}
        | None => None
        end
    end.
Proof.
  intros Hbare. unfold ParseIPOrNet. rewrite Hbare. simpl negb. cbv iota.
  unfold net.ParseCIDR.
  change (token +:+ "/32") with (token +:+ String "/" "32").
  rewrite byteIndex_bare, slice_to_app, slice_from_app by done.
  change (net.dtoi "32") with (32, 2%nat, true).
  destruct (net.parseIPv4 token) as [ip|] eqn:E4.
  - apply parseIPv4_octets in E4 as (a & b & c & d & -> & Ha & Hb & Hc & Hd).
    change (8 * Z.of_nat net.IPv4len) with 32.
    change (net.CIDRMask 32 32) with [255; 255; 255; 255].
    cbn. unfold net.IP_Mask. cbn. rewrite bool_decide_true by done.
    cbn. by rewrite !land_octet.
  - destruct (net.parseIPv6 token) as [ip|] eqn:E6; [|done].
    apply parseIPv6_length in E6.
    change (8 * Z.of_nat net.IPv6len) with 128.
    simpl.
    assert (net.IP_Mask ip (net.CIDRMask 32 128)
            = zip_with Z.land ip (net.CIDRMask 32 128)) as ->; [|done].
    by apply IP_Mask_IPv6.
Qed.

(** A bare IPv4 address becomes its host route. *)
Lemma ParseIPOrNet_bare_IPv4 token ip :
  strings.Contains token "/" = false →
  net.parseIPv4 token = Some ip →
  ∃ ipNet, ParseIPOrNet token = Some ipNet ∧ host_route (drop 12 ip) ipNet.
Proof.
  intros Hbare H4. rewrite ParseIPOrNet_bare, H4 by done.
  eexists; split; [done|].
  apply parseIPv4_octets in H4 as (a & b & c & d & -> & _). by split.
Qed.

(** C6.  [ParseIPOrNet] appends "/32" to every token without '/', so the
    bare IPv6 address 2001:db8::1 does not become its host route
    2001:db8::1/128 but the network 2001:db8::/32, which holds other
    addresses as well, 2001:db8:ffff::2 for one; the parser takes it into the
    configuration without an error.  The bare IPv4 address 10.0.0.1 does
    become 10.0.0.1/32. *)
Theorem ParseIPOrNet_bare_IPv6_network :
  let address := [0x20; 0x01; 0x0d; 0xb8; 0; 0; 0; 0; 0; 0; 0; 0; 0; 0; 0; 1] in
  let other := [0x20; 0x01; 0x0d; 0xb8; 0xff; 0xff; 0; 0; 0; 0; 0; 0; 0; 0; 0; 2] in
  let network :=
    {| net.IPNet_IP := [0x20; 0x01; 0x0d; 0xb8; 0; 0; 0; 0; 0; 0; 0; 0; 0; 0; 0; 0];
       net.IPNet_Mask := [255; 255; 255; 255; 0; 0; 0; 0; 0; 0; 0; 0; 0; 0; 0; 0] |} in
  strings.Contains "2001:db8::1" "/" = false
  ∧ net.ParseIP "2001:db8::1" = Some address
  ∧ ParseIPOrNet "2001:db8::1" = Some network
  ∧ net.IPNet_String network = "2001:db8::/32"
  ∧ ¬ host_route address network
  ∧ net.IPNet_Contains network other = true
  ∧ NetFilterConfigParse "2001:db8::1"
    = (Some {| allowedNets := [network]; allowedRanges := [] |}, None)
  ∧ NetFilterConfigParse "10.0.0.1"
    = (Some {| allowedNets :=
                 [{| net.IPNet_IP := [10; 0; 0; 1];
                     net.IPNet_Mask := [255; 255; 255; 255] |}];
               allowedRanges := [] |}, None).
Proof.
  intros address other network.
  split; [reflexivity|]. split; [vm_compute; reflexivity|].
  split; [vm_compute; reflexivity|]. split; [vm_compute; reflexivity|].
  split; [intros [H _]; discriminate H|].
  split; [vm_compute; reflexivity|].
  split; vm_compute; reflexivity.
Qed.

(** ** The rules of a filter *)

Lemma fold_addRule {A} (f : A → list string) (l : list A) :
  ∀ ipRules,
    rules (fold_left (fun ipRules x => addRule ipRules (f x)) l ipRules)
    = rules ipRules ++ map f l.
Proof.
  induction l as [|x l IH]; intros ipRules; simpl.
  - by rewrite app_nil_r.
  - rewrite IH. simpl. by rewrite <- app_assoc.
Qed.

Lemma applyFiltering_rules_eq (ifaceName : string) (config : netFilterConfig) :
  rules (applyFiltering_rules ifaceName config)
  = ["-N"; "CONTAINER-" +:+ ifaceName]
      :: map (fun ipNet =>
                ["-A"; "CONTAINER-" +:+ ifaceName; "-s"; net.IPNet_String ipNet;
                 "-j"; "ACCEPT"])
           (allowedNets config)
      ++ map (fun ipRange =>
                ["-A"; "CONTAINER-" +:+ ifaceName; "-m"; "iprange"; "--src-range";
                 IPRange_String ipRange; "-j"; "ACCEPT"])
           (allowedRanges config)
      ++ [["-A"; "CONTAINER-" +:+ ifaceName; "-j"; "CONTAINER-REJECT"];
          ["-I"; "CONTAINERS"; "1"; "-o"; ifaceName; "-j"; "CONTAINER-" +:+ ifaceName]].
Proof.
  unfold applyFiltering_rules. cbn [addRule rules].
  rewrite !fold_addRule. cbn [addRule rules new_iptablesRules app].
  by rewrite <- !app_assoc.
Qed.

Lemma removeFiltering_rules_eq (ifaceName : string) :
  rules (removeFiltering_rules ifaceName)
  = [["-D"; "CONTAINERS"; "-o"; ifaceName; "-j"; "CONTAINER-" +:+ ifaceName];
     ["-F"; "CONTAINER-" +:+ ifaceName];
     ["-X"; "CONTAINER-" +:+ ifaceName]].
Proof. reflexivity. Qed.

(** C1.  The rules [applyFiltering] collects for an interface and a
    configuration are, in this order: create the chain of the interface;
    one accept rule per network, appended to that chain, on the source
    network, in the order of the configuration; one accept rule per range,
    appended, on an iprange source match, in the order of the
    configuration; the jump to CONTAINER-REJECT, appended; the jump to the
    chain of the interface, inserted at position 1 of CONTAINERS.  For the
    two networks [A] and [B] and no range that is five operations. *)
Theorem applyFiltering_rules_sequence (ifaceName : string) :
  let chain := "CONTAINER-" +:+ ifaceName in
  let accept_net (ipNet : net.IPNet) :=
    ["-A"; chain; "-s"; net.IPNet_String ipNet; "-j"; "ACCEPT"] in
  let accept_range (ipRange : IPRange) :=
    ["-A"; chain; "-m"; "iprange"; "--src-range"; IPRange_String ipRange;
     "-j"; "ACCEPT"] in
  let reject := ["-A"; chain; "-j"; "CONTAINER-REJECT"] in
  let jump := ["-I"; "CONTAINERS"; "1"; "-o"; ifaceName; "-j"; chain] in
  (∀ config,
     rules (applyFiltering_rules ifaceName config)
     = ["-N"; chain]
         :: map accept_net (allowedNets config)
         ++ map accept_range (allowedRanges config)
         ++ [reject; jump])
  ∧ (∀ A B,
       rules (applyFiltering_rules ifaceName
                {| allowedNets := [A; B]; allowedRanges := [] |})
       = [["-N"; chain]; accept_net A; accept_net B; reject; jump]).
Proof.
  intros chain accept_net accept_range reject jump.
  split; [intros config|intros A B]; by rewrite applyFiltering_rules_eq.
Qed.

(** ** The options of an endpoint *)

(** C9.  [newNetFilter] panics when the key [IngressAllowed] is absent from
    the options and when it is bound to a value that is no
    [*netFilterConfig] (the nil interface value among them); it returns a
    filter exactly when the key is bound to a [*netFilterConfig], and the
    filter then carries that pointer, nil or not. *)
Theorem newNetFilter_panics (IngressAllowed ifaceName : string)
    (epOptions : gmap string (option dynamic)) :
  (epOptions !! IngressAllowed = None →
     ∃ msg, newNetFilter IngressAllowed ifaceName epOptions = Panicked msg)
  ∧ (∀ v, epOptions !! IngressAllowed = Some v →
       (∀ p, v ≠ Some (dyn_netFilterConfig p)) →
       ∃ msg, newNetFilter IngressAllowed ifaceName epOptions = Panicked msg)
  ∧ (∀ p, epOptions !! IngressAllowed = Some (Some (dyn_netFilterConfig p)) →
       newNetFilter IngressAllowed ifaceName epOptions
       = Returned {| ifaceName := ifaceName; config := p |})
  ∧ (∀ n, newNetFilter IngressAllowed ifaceName epOptions = Returned n →
       ∃ p, epOptions !! IngressAllowed = Some (Some (dyn_netFilterConfig p))
            ∧ n = {| ifaceName := ifaceName; config := p |}).
Proof.
  unfold newNetFilter.
  destruct (epOptions !! IngressAllowed) as [[[p|s|t]|]|]; simpl.
  all: split; [intros; by (done || eexists)|].
  all: split; [intros v [= <-] Hv; first [by eexists | by destruct (Hv p)]|].
  all: split; [by intros p' [= <-]|].
  all: try done.
  intros n [= <-]. by exists p.
Qed.

Example newNetFilter_ex :
  newNetFilter "ingress" "veth1" ∅
    = Panicked "interface conversion: interface {} is nil, not *routed.netFilterConfig"
  ∧ newNetFilter "ingress" "veth1" {["ingress" := Some (dyn_string "10.0.0.1")]}
    = Panicked "interface conversion: interface {} is string, not *routed.netFilterConfig"
  ∧ newNetFilter "ingress" "veth1" {["ingress" := None]}
    = Panicked "interface conversion: interface {} is nil, not *routed.netFilterConfig"
  ∧ newNetFilter "ingress" "veth1" {["ingress" := Some (dyn_netFilterConfig None)]}
    = Returned {| ifaceName := "veth1"; config := None |}.
Proof. vm_compute. repeat split. Qed.

(** ** Applying rules *)

Section application.

Context {St : Type} `{!iptables.Backend St}.

Implicit Types (w : iptables.World St) (ops pre post : list (list string)).

Lemma execute_all_app pre post (st : St) :
  execute_all (pre ++ post) st = execute_all post (execute_all pre st).
Proof. apply fold_left_app. Qed.

Lemma all_succeed_app pre post (st : St) :
  all_succeed (pre ++ post) st
  ↔ all_succeed pre st ∧ all_succeed post (execute_all pre st).
Proof.
  revert st; induction pre as [|op pre IH]; intros st; simpl; [tauto|].
  rewrite IH. tauto.
Qed.

#[local] Instance all_succeed_dec ops (st : St) : Decision (all_succeed ops st).
Proof. revert st; induction ops; intros st; simpl; apply _. Defined.

(** A run that does not succeed throughout has a first operation that
    fails. *)
Lemma first_failure ops (st : St) :
  ¬ all_succeed ops st →
  ∃ pre op post out err,
    ops = pre ++ op :: post
    ∧ all_succeed pre st
    ∧ fst (iptables.execute op (execute_all pre st)) = (out, Some err).
Proof.
  revert st; induction ops as [|op ops IH]; intros st Hnot; simpl in Hnot.
  - by destruct Hnot.
  - destruct (iptables.execute op st) as [[out [err|]] st1] eqn:E.
    + exists [], op, ops, out, err. simpl. by rewrite E.
    + destruct (IH st1) as (pre & op' & post & out' & err & -> & Hpre & Hop).
      { intros Hall. apply Hnot. by split. }
      exists (op :: pre), op', post, out', err. simpl. by rewrite E.
Qed.

Lemma applyIPTablesRule_eq op w :
  applyIPTablesRule op w
  = (match snd (fst (iptables.execute op (iptables.backend w))) with
     | Some err =>
         Some (rule_failed op (fst (fst (iptables.execute op (iptables.backend w)))) err)
     | None => None
     end,
     {| iptables.backend := snd (iptables.execute op (iptables.backend w));
        iptables.executed := iptables.executed w ++ [op] |}).
Proof.
  unfold applyIPTablesRule, bind, iptables.Raw.
  by destruct (iptables.execute op (iptables.backend w)) as [[out [err|]] st1].
Qed.

(** The loop takes the operations in order while they succeed. *)
Lemma apply_loop_succeed ops :
  ∀ w, all_succeed ops (iptables.backend w) →
       apply_loop ops w
       = (None,
          {| iptables.backend := execute_all ops (iptables.backend w);
             iptables.executed := iptables.executed w ++ ops |}).
Proof.
  induction ops as [|op ops IH]; intros w; simpl.
  - intros _. unfold ret. destruct w. by rewrite app_nil_r.
  - intros [Hop Hops]. unfold bind at 1. rewrite applyIPTablesRule_eq, Hop.
    rewrite IH by done. simpl. by rewrite <- app_assoc.
Qed.

(** The loop stops at the first operation that fails. *)
Lemma apply_loop_fail pre op post out err :
  ∀ w, all_succeed pre (iptables.backend w) →
       fst (iptables.execute op (execute_all pre (iptables.backend w))) = (out, Some err) →
       apply_loop (pre ++ op :: post) w
       = (Some (rule_failed op out err),
          {| iptables.backend :=
               snd (iptables.execute op (execute_all pre (iptables.backend w)));
             iptables.executed := iptables.executed w ++ pre ++ [op] |}).
Proof.
  induction pre as [|op' pre IH]; intros w; simpl.
  - intros _ Hop. unfold bind at 1. rewrite applyIPTablesRule_eq, Hop. done.
  - intros [Hop' Hpre] Hop. unfold bind at 1. rewrite applyIPTablesRule_eq, Hop'.
    rewrite IH by done. simpl. by rewrite <- app_assoc.
Qed.

(** When the loop returns no error every operation has succeeded. *)
Lemma apply_loop_None ops w w' :
  apply_loop ops w = (None, w') → all_succeed ops (iptables.backend w).
Proof.
  intros Hret.
  destruct (decide (all_succeed ops (iptables.backend w))) as [|Hnot]; [done|].
  destruct (first_failure _ _ Hnot) as (pre & op & post & out & err & -> & Hpre & Hop).
  by rewrite (apply_loop_fail _ _ _ _ _ _ Hpre Hop) in Hret.
Qed.

(** C2.  When the backend fails on some operation of a rule program,
    [iptablesRules.apply] has executed the operations before the first one
    that fails, in order, and that one; it returns the error made of the
    arguments of that operation, the output of the backend and its error;
    the backend is left in the state the failed operation left it in, with
    nothing of the rest of the program executed and nothing undone. *)
Theorem iptablesRules_apply_fail_fast (ipRules : iptablesRules) w :
  ¬ all_succeed (rules ipRules) (iptables.backend w) →
  ∃ pre op post out err,
    rules ipRules = pre ++ op :: post
    ∧ all_succeed pre (iptables.backend w)
    ∧ fst (iptables.execute op (execute_all pre (iptables.backend w))) = (out, Some err)
    ∧ iptablesRules_apply ipRules w
      = (Some ("NetFilter. IP tables apply rule failed " +:+ fmt.verb_s_slice op
               +:+ " " +:+ out +:+ " " +:+ err),
         {| iptables.backend :=
              snd (iptables.execute op (execute_all pre (iptables.backend w)));
            iptables.executed := iptables.executed w ++ pre ++ [op] |}).
Proof.
  intros Hnot.
  destruct (first_failure _ _ Hnot) as (pre & op & post & out & err & Hops & Hpre & Hop).
  exists pre, op, post, out, err. do 3 (split; [done|]).
  unfold iptablesRules_apply. rewrite Hops. by apply apply_loop_fail.
Qed.

Lemma verify_chains_missing chainNames w :
  Exists (fun chainName =>
            iptables.chain_exists chainName iptables.Filter (iptables.backend w) = false)
    chainNames →
  ∃ chainName,
    chainName ∈ chainNames
    ∧ iptables.chain_exists chainName iptables.Filter (iptables.backend w) = false
    ∧ verify_chains chainNames w
      = (Some ("Expected iptables chain not found: " +:+ chainName), w).
Proof.
  induction chainNames as [|c chainNames IH]; intros Hex.
  - by apply Exists_nil in Hex.
  - simpl. unfold bind, chainExists, iptables.ExistChain.
    destruct (iptables.chain_exists c _ _) eqn:E; simpl.
    + apply Exists_cons in Hex as [Hc|Hex]; [congruence|].
      destruct (IH Hex) as (c' & Hin & Hc' & ->).
      exists c'. split; [by right|done].
    + exists c. split; [by left|done].
Qed.

(** C3.  When the filter carries a configuration and CONTAINERS or
    CONTAINER-REJECT does not exist in the filter table, [applyFiltering]
    returns the error that names the first of the two that is missing, and
    leaves the world as it was: no command has been given to the backend. *)
Theorem applyFiltering_precondition (n : netFilter) (allowlist : netFilterConfig) w :
  config n = Some allowlist →
  iptables.chain_exists "CONTAINERS" iptables.Filter (iptables.backend w) = false
  ∨ iptables.chain_exists "CONTAINER-REJECT" iptables.Filter (iptables.backend w) = false →
  ∃ chainName,
    chainName ∈ ["CONTAINERS"; "CONTAINER-REJECT"]
    ∧ iptables.chain_exists chainName iptables.Filter (iptables.backend w) = false
    ∧ applyFiltering n w
      = (Some ("Expected iptables chain not found: " +:+ chainName), w)
    ∧ iptables.executed (snd (applyFiltering n w)) = iptables.executed w.
Proof.
  intros Hconfig Hmissing.
  destruct (verify_chains_missing [containersChainName; containerRejectChainName] w)
    as (c & Hin & Hc & Hverify).
  { destruct Hmissing; [by left|right; by left]. }
  exists c. do 2 (split; [done|]).
  unfold applyFiltering. rewrite Hconfig. unfold bind. rewrite Hverify.
  by split.
Qed.

End application.

(** ** Removing a filter *)

Section removal.

Context {St : Type} `{!iptables.Backend St}.

(** C8.  [removeFiltering] on a filter without configuration returns no
    error and leaves the world as it was.  On a filter with a configuration
    it applies the program of three operations: delete the jump to the
    chain of the interface from CONTAINERS, flush the chain of the
    interface, delete it.  When the three succeed they have been executed in
    this order and no error is returned; otherwise the operations up to the
    first that fails have been executed, that one's error is returned, and
    the rest is neither executed nor is anything undone, as for
    [applyFiltering]. *)
Theorem removeFiltering_sequence (n : netFilter) (w : iptables.World St) :
  let chain := "CONTAINER-" +:+ ifaceName n in
  let ops := [["-D"; "CONTAINERS"; "-o"; ifaceName n; "-j"; chain];
              ["-F"; chain]; ["-X"; chain]] in
  (config n = None → removeFiltering n w = (None, w))
  ∧ (config n ≠ None →
       removeFiltering n w = iptablesRules_apply {| rules := ops |} w
       ∧ (all_succeed ops (iptables.backend w) →
            removeFiltering n w
            = (None,
               {| iptables.backend := execute_all ops (iptables.backend w);
                  iptables.executed := iptables.executed w ++ ops |}))
       ∧ (¬ all_succeed ops (iptables.backend w) →
            ∃ pre op post out err,
              ops = pre ++ op :: post
              ∧ all_succeed pre (iptables.backend w)
              ∧ fst (iptables.execute op (execute_all pre (iptables.backend w)))
                = (out, Some err)
              ∧ removeFiltering n w
                = (Some ("NetFilter. IP tables apply rule failed "
                         +:+ fmt.verb_s_slice op +:+ " " +:+ out +:+ " " +:+ err),
                   {| iptables.backend :=
                        snd (iptables.execute op
                               (execute_all pre (iptables.backend w)));
                      iptables.executed := iptables.executed w ++ pre ++ [op] |}))).
Proof.
  intros chain ops. unfold removeFiltering.
  destruct (config n) as [allowlist|]; split; try done.
  intros _. unfold iptablesRules_apply. rewrite removeFiltering_rules_eq.
  fold chain. fold ops. cbn [rules].
  split; [done|]. split.
  - apply apply_loop_succeed.
  - intros Hnot.
    destruct (first_failure _ _ Hnot) as (pre & op & post & out & err & Hops & Hpre & Hop).
    exists pre, op, post, out, err. do 3 (split; [done|]).
    rewrite Hops. by apply apply_loop_fail.
Qed.

End removal.

(** ** Apply, then remove, on the chains of the filter table *)

Section round_trip.

Implicit Types (st : gmap string (list (list string))) (ops : list (list string)).

Lemma vethChainName_not_base (ifaceName : string) :
  "CONTAINER-" +:+ ifaceName ≠ "CONTAINERS".
Proof. intros Heq. vm_compute in Heq. discriminate Heq. Qed.

#[local] Arguments filter_table.exec : simpl never.

(** On this backend [iptables.execute] is [filter_table.exec]. *)
Ltac to_exec :=
  repeat match goal with
    | |- context [iptables.execute ?op ?s] =>
        change (iptables.execute op s) with (filter_table.exec op s)
    | H : context [iptables.execute ?op ?s] |- _ =>
        change (iptables.execute op s) with (filter_table.exec op s) in H
    end.

(** An operation on a chain leaves the other chains as they are. *)
Lemma exec_other_chain flag chain rest st (k : string) :
  k ≠ chain → snd (filter_table.exec (flag :: chain :: rest) st) !! k = st !! k.
Proof.
  intros Hk. unfold filter_table.exec.
  repeat case_match; simpl; try done.
  all: by rewrite ?lookup_insert_ne, ?lookup_delete_ne.
Qed.

Lemma execute_all_other_chain chain ops (k : string) :
  k ≠ chain → all_on chain ops →
  ∀ st, execute_all ops st !! k = st !! k.
Proof.
  intros Hk Hops. induction Hops as [|op ops (flag & rest & ->) _ IH]; intros st.
  - done.
  - unfold execute_all in *. simpl. rewrite IH. by apply exec_other_chain.
Qed.

(** An insertion at position 1 that succeeds puts the rule in front. *)
Lemma exec_insert_first chain rule st :
  snd (fst (filter_table.exec ("-I" :: chain :: "1" :: rule) st)) = None →
  ∃ rs, st !! chain = Some rs
        ∧ snd (filter_table.exec ("-I" :: chain :: "1" :: rule) st)
          = <[chain := rule :: rs]> st.
Proof.
  unfold filter_table.exec.
  change (String.eqb "-I" "-N") with false. change (String.eqb "-I" "-F") with false.
  change (String.eqb "-I" "-X") with false. change (String.eqb "-I" "-A") with false.
  change (String.eqb "-I" "-I") with true.
  change (filter_table.rulenum "1") with (Some 1%nat). cbv iota.
  destruct (st !! chain) as [rs|]; [|done].
  intros _. exists rs. split; [done|].
  change (1 <=? 1)%nat with true.
  destruct (1 <=? length rs + 1)%nat eqn:E; [done|].
  apply Nat.leb_gt in E. lia.
Qed.

(** A deletion that succeeds takes the first rule that matches. *)
Lemma exec_delete_rule chain rule st :
  snd (fst (filter_table.exec ("-D" :: chain :: rule) st)) = None →
  ∃ rs, st !! chain = Some rs
        ∧ snd (filter_table.exec ("-D" :: chain :: rule) st)
          = <[chain := filter_table.delete_rule rule rs]> st.
Proof.
  unfold filter_table.exec.
  change (String.eqb "-D" "-N") with false. change (String.eqb "-D" "-F") with false.
  change (String.eqb "-D" "-X") with false. change (String.eqb "-D" "-A") with false.
  change (String.eqb "-D" "-I") with false. change (String.eqb "-D" "-D") with true.
  cbv iota.
  destruct (st !! chain) as [rs|]; [|done].
  destruct (bool_decide (rule ∈ rs)); [|done].
  intros _. by exists rs.
Qed.

(** A chain deletion that succeeds leaves no chain of that name. *)
Lemma exec_delete_chain chain st :
  snd (fst (filter_table.exec ["-X"; chain] st)) = None →
  snd (filter_table.exec ["-X"; chain] st) = delete chain st.
Proof.
  unfold filter_table.exec.
  change (String.eqb "-X" "-N") with false. change (String.eqb "-X" "-F") with false.
  change (String.eqb "-X" "-X") with true. cbv iota.
  by destruct (st !! chain).
Qed.

Lemma delete_rule_head rule rs : filter_table.delete_rule rule (rule :: rs) = rs.
Proof. simpl. by rewrite bool_decide_true. Qed.

Lemma verify_chains_world {St} `{!iptables.Backend St} chainNames :
  ∀ (w w' : iptables.World St) r, verify_chains chainNames w = (r, w') → w' = w.
Proof.
  induction chainNames as [|c chainNames IH]; intros w w' r; simpl.
  - by intros [= _ <-].
  - unfold bind, chainExists, iptables.ExistChain.
    destruct (negb _); [by intros [= _ <-]|apply IH].
Qed.

(** What a successful [applyFiltering] has done to the table: the rules
    before the last one work on the chain of the interface only, and the
    last one puts the jump in front of CONTAINERS. *)
Lemma applyFiltering_table (n : netFilter)
    (w w1 : iptables.World (gmap string (list (list string)))) :
  config n ≠ None →
  applyFiltering n w = (None, w1) →
  ∃ base,
    iptables.backend w !! "CONTAINERS" = Some base
    ∧ iptables.backend w1 !! "CONTAINERS"
      = Some (["-o"; ifaceName n; "-j"; "CONTAINER-" +:+ ifaceName n] :: base).
Proof.
  intros Hconfig. unfold applyFiltering.
  destruct (config n) as [allowlist|]; [clear Hconfig|done].
  unfold bind at 1.
  destruct (verify_chains _ w) as [[e|] w'] eqn:Hverify; [done|].
  apply verify_chains_world in Hverify as ->.
  unfold bind, iptablesRules_apply. rewrite applyFiltering_rules_eq.
  set (chain := "CONTAINER-" +:+ ifaceName n).
  set (accept_nets := map _ (allowedNets allowlist)).
  set (accept_ranges := map _ (allowedRanges allowlist)).
  set (jump := ["-I"; "CONTAINERS"; "1"; "-o"; ifaceName n; "-j"; chain]).
  replace (["-N"; chain] :: accept_nets ++ accept_ranges ++ _)
    with ((["-N"; chain] :: accept_nets ++ accept_ranges
             ++ [["-A"; chain; "-j"; "CONTAINER-REJECT"]]) ++ [jump])
    by (simpl; by rewrite <- !app_assoc).
  set (first := ["-N"; chain] :: _).
  assert (all_on chain first) as Hon.
  { unfold first, all_on. apply Forall_cons. split; [by eexists _, _|].
    subst accept_nets accept_ranges.
    rewrite !Forall_app, !List.Forall_map. repeat split.
    - apply Forall_true. intros ipNet. by eexists _, _.
    - apply Forall_true. intros ipRange. by eexists _, _.
    - apply Forall_singleton. by eexists _, _. }
  clearbody first. clear accept_nets accept_ranges.
  destruct (apply_loop _ w) as [[e|] w1'] eqn:Happly; [done|].
  intros [= <-].
  pose proof (apply_loop_None _ _ _ Happly) as Hall.
  rewrite (apply_loop_succeed _ _ Hall) in Happly.
  injection Happly as <-. cbn [iptables.backend].
  apply all_succeed_app in Hall as [_ [Hjump _]].
  rewrite execute_all_app.
  assert (execute_all first (iptables.backend w) !! "CONTAINERS"
          = iptables.backend w !! "CONTAINERS") as Hfirst.
  { apply (execute_all_other_chain chain); [|done].
    intros Heq. by apply (vethChainName_not_base (ifaceName n)). }
  set (st1 := execute_all first (iptables.backend w)) in *.
  subst jump.
  apply exec_insert_first in Hjump as (base & Hbase & Hst).
  exists base. split; [by rewrite <- Hfirst|].
  unfold execute_all at 1. cbn [fold_left].
  to_exec. rewrite Hst. apply lookup_insert_eq.
Qed.

(** C7.  On the chains of the filter table: when [applyFiltering] of a
    filter with a configuration succeeds and [removeFiltering] of that
    filter succeeds after it, the chain CONTAINERS holds the rules it held
    before, the same rules in the same order and so the same set of rules,
    and the chain of the interface does not exist. *)
Theorem apply_remove_round_trip (n : netFilter)
    (w w1 w2 : iptables.World (gmap string (list (list string)))) :
  config n ≠ None →
  applyFiltering n w = (None, w1) →
  removeFiltering n w1 = (None, w2) →
  iptables.backend w2 !! "CONTAINERS" = iptables.backend w !! "CONTAINERS"
  ∧ (∀ rule,
       rule ∈ default [] (iptables.backend w2 !! "CONTAINERS")
       ↔ rule ∈ default [] (iptables.backend w !! "CONTAINERS"))
  ∧ iptables.backend w2 !! ("CONTAINER-" +:+ ifaceName n) = None.
Proof.
  intros Hconfig Happly Hremove.
  destruct (applyFiltering_table n w w1 Hconfig Happly) as (base & Hbase & Hjump).
  assert (iptables.backend w2 !! "CONTAINERS" = iptables.backend w !! "CONTAINERS"
          ∧ iptables.backend w2 !! ("CONTAINER-" +:+ ifaceName n) = None)
    as [Hsame Hgone]; [|by rewrite Hsame].
  revert Hremove. unfold removeFiltering.
  destruct (config n) as [allowlist|]; [clear Hconfig|done].
  unfold iptablesRules_apply. rewrite removeFiltering_rules_eq.
  set (chain := "CONTAINER-" +:+ ifaceName n) in *.
  intros Hremove.
  pose proof (apply_loop_None _ _ _ Hremove) as Hall.
  rewrite (apply_loop_succeed _ _ Hall) in Hremove.
  injection Hremove as <-. cbn [iptables.backend].
  destruct Hall as [Hdelete [_ [Hdelchain _]]].
  apply exec_delete_rule in Hdelete as (rs & Hrs & Hdelete).
  apply exec_delete_chain in Hdelchain.
  unfold execute_all. cbn [fold_left]. to_exec.
  rewrite Hdelchain.
  assert (chain ≠ "CONTAINERS") as Hne by apply vethChainName_not_base.
  split; [|apply lookup_delete_eq].
  rewrite lookup_delete_ne by done.
  rewrite exec_other_chain by done.
  rewrite Hdelete, lookup_insert_eq, Hbase.
  rewrite Hjump in Hrs. injection Hrs as <-.
  by rewrite delete_rule_head.
Qed.

End round_trip.

(** ** The theorems at work on the chains of the filter table *)

(** On the empty table the program of [filter_ex] fails at its last
    operation, for want of the chain CONTAINERS; the chain of the interface
    and its rules stay behind. *)
Lemma iptablesRules_apply_fail_fast_witness :
  let ipRules := applyFiltering_rules "veth1" allowlist_ex in
  let w := filter_table.world ∅ in
  ¬ all_succeed (rules ipRules) (iptables.backend w)
  ∧ ∃ pre op post out err,
      rules ipRules = pre ++ op :: post
      ∧ all_succeed pre (iptables.backend w)
      ∧ fst (iptables.execute op (execute_all pre (iptables.backend w))) = (out, Some err)
      ∧ iptablesRules_apply ipRules w
        = (Some ("NetFilter. IP tables apply rule failed " +:+ fmt.verb_s_slice op
                 +:+ " " +:+ out +:+ " " +:+ err),
           {| iptables.backend :=
                snd (iptables.execute op (execute_all pre (iptables.backend w)));
              iptables.executed := iptables.executed w ++ pre ++ [op] |}).
Proof.
  intros ipRules w.
  assert (¬ all_succeed (rules ipRules) (iptables.backend w)) as Hnot.
  { vm_compute. intros (_ & _ & _ & _ & Hjump & _). discriminate Hjump. }
  split; [assumption|].
  exact (iptablesRules_apply_fail_fast ipRules w Hnot).
Defined.

Example iptablesRules_apply_partial :
  iptablesRules_apply (applyFiltering_rules "veth1" allowlist_ex) (filter_table.world ∅)
  = (Some ("NetFilter. IP tables apply rule failed "
           +:+ "[-I CONTAINERS 1 -o veth1 -j CONTAINER-veth1] "
           +:+ "iptables: No chain/target/match by that name. exit status 1"),
     {| iptables.backend :=
          {["CONTAINER-veth1" :=
              [["-s"; "10.0.0.1/32"; "-j"; "ACCEPT"];
               ["-s"; "10.0.0.2/32"; "-j"; "ACCEPT"];
               ["-j"; "CONTAINER-REJECT"]]]};
        iptables.executed :=
          [["-N"; "CONTAINER-veth1"];
           ["-A"; "CONTAINER-veth1"; "-s"; "10.0.0.1/32"; "-j"; "ACCEPT"];
           ["-A"; "CONTAINER-veth1"; "-s"; "10.0.0.2/32"; "-j"; "ACCEPT"];
           ["-A"; "CONTAINER-veth1"; "-j"; "CONTAINER-REJECT"];
           ["-I"; "CONTAINERS"; "1"; "-o"; "veth1"; "-j"; "CONTAINER-veth1"]] |}).
Proof. vm_compute. reflexivity. Qed.

Lemma applyFiltering_precondition_witness :
  let w := filter_table.world {["CONTAINERS" := []]} in
  config filter_ex = Some allowlist_ex
  ∧ (iptables.chain_exists "CONTAINERS" iptables.Filter (iptables.backend w) = false
     ∨ iptables.chain_exists "CONTAINER-REJECT" iptables.Filter (iptables.backend w)
       = false)
  ∧ ∃ chainName,
      chainName ∈ ["CONTAINERS"; "CONTAINER-REJECT"]
      ∧ iptables.chain_exists chainName iptables.Filter (iptables.backend w) = false
      ∧ applyFiltering filter_ex w
        = (Some ("Expected iptables chain not found: " +:+ chainName), w)
      ∧ iptables.executed (snd (applyFiltering filter_ex w)) = iptables.executed w.
Proof.
  intros w.
  assert (config filter_ex = Some allowlist_ex) as Hconfig by reflexivity.
  assert (iptables.chain_exists "CONTAINERS" iptables.Filter (iptables.backend w) = false
          ∨ iptables.chain_exists "CONTAINER-REJECT" iptables.Filter (iptables.backend w)
            = false) as Hmissing by (right; vm_compute; reflexivity).
  do 2 (split; [assumption|]).
  exact (applyFiltering_precondition filter_ex allowlist_ex w Hconfig Hmissing).
Defined.

Lemma apply_remove_round_trip_witness :
  let w := filter_table.world filter_table.base in
  let w1 := snd (applyFiltering filter_ex w) in
  let w2 := snd (removeFiltering filter_ex w1) in
  config filter_ex ≠ None
  ∧ applyFiltering filter_ex w = (None, w1)
  ∧ removeFiltering filter_ex w1 = (None, w2)
  ∧ iptables.backend w2 !! "CONTAINERS" = iptables.backend w !! "CONTAINERS"
  ∧ (∀ rule,
       rule ∈ default [] (iptables.backend w2 !! "CONTAINERS")
       ↔ rule ∈ default [] (iptables.backend w !! "CONTAINERS"))
  ∧ iptables.backend w2 !! ("CONTAINER-" +:+ ifaceName filter_ex) = None.
Proof.
  intros w w1 w2.
  assert (config filter_ex ≠ None) as Hconfig by discriminate.
  assert (applyFiltering filter_ex w = (None, w1)) as Happly by (vm_compute; reflexivity).
  assert (removeFiltering filter_ex w1 = (None, w2)) as Hremove
    by (vm_compute; reflexivity).
  do 3 (split; [assumption|]).
  exact (apply_remove_round_trip filter_ex w w1 w2 Hconfig Happly Hremove).
Defined.

(** Removing the filter a second time fails at the first operation: the
    jump is no longer in CONTAINERS. *)
Example removeFiltering_twice :
  let w := filter_table.world filter_table.base in
  let w1 := snd (applyFiltering filter_ex w) in
  let w2 := snd (removeFiltering filter_ex w1) in
  iptables.backend w2 = filter_table.base
  ∧ removeFiltering filter_ex w2
    = (Some ("NetFilter. IP tables apply rule failed "
             +:+ "[-D CONTAINERS -o veth1 -j CONTAINER-veth1] "
             +:+ "iptables: Bad rule (does a matching rule exist in that chain?). "
             +:+ "exit status 1"),
       {| iptables.backend := filter_table.base;
          iptables.executed :=
            iptables.executed w2
            ++ [["-D"; "CONTAINERS"; "-o"; "veth1"; "-j"; "CONTAINER-veth1"]] |}).
Proof. vm_compute. split; reflexivity. Qed.

(** * Further properties of the code *)

(** ** What [iptablesRules.apply] leaves behind *)

Section prefix.

Context {St : Type} `{!iptables.Backend St}.

Lemma execute_all_snoc (pre : list (list string)) (op : list string) (st : St) :
  execute_all (pre ++ [op]) st = snd (iptables.execute op (execute_all pre st)).
Proof. by rewrite execute_all_app. Qed.

Lemma apply_loop_prefix (ops : list (list string)) (w : iptables.World St) :
  ∃ k : nat,
    (k ≤ length ops)%nat
    ∧ snd (apply_loop ops w)
      = {| iptables.backend := execute_all (take k ops) (iptables.backend w);
           iptables.executed := iptables.executed w ++ take k ops |}
    ∧ (fst (apply_loop ops w) = None ↔ all_succeed ops (iptables.backend w))
    ∧ (fst (apply_loop ops w) = None → k = length ops).
Proof.
  destruct (all_succeed_dec ops (iptables.backend w)) as [Hall|Hnot].
  - exists (length ops). rewrite apply_loop_succeed by done.
    rewrite firstn_all. by repeat split.
  - destruct (first_failure _ _ Hnot) as (pre & op & post & out & err & -> & Hpre & Hop).
    exists (S (length pre)). rewrite (apply_loop_fail _ _ _ _ _ _ Hpre Hop).
    assert (take (S (length pre)) (pre ++ op :: post) = pre ++ [op]) as ->.
    { rewrite take_app_ge by lia.
      replace (S (length pre) - length pre)%nat with 1%nat by lia. done. }
    rewrite execute_all_snoc, length_app. cbn.
    split; [lia|]. split; [done|]. split; [|done].
    split; [done|]. intros Hall. by destruct Hnot.
Qed.

(** X1.  Whatever [iptablesRules.apply] returns, the commands it has given
    to the backend are the first [k] rules of the program, in order, for
    some [k], and the backend is in the state in which these [k] commands
    leave it; the error is nil exactly when every rule succeeds, and then
    [k] is the length of the program. *)
Theorem iptablesRules_apply_prefix (ipRules : iptablesRules) (w : iptables.World St) :
  ∃ k : nat,
    (k ≤ length (rules ipRules))%nat
    ∧ snd (iptablesRules_apply ipRules w)
      = {| iptables.backend := execute_all (take k (rules ipRules)) (iptables.backend w);
           iptables.executed := iptables.executed w ++ take k (rules ipRules) |}
    ∧ (fst (iptablesRules_apply ipRules w) = None
       ↔ all_succeed (rules ipRules) (iptables.backend w))
    ∧ (fst (iptablesRules_apply ipRules w) = None → k = length (rules ipRules)).
Proof. unfold iptablesRules_apply. apply apply_loop_prefix. Qed.

Lemma verify_chains_found chainNames (w : iptables.World St) :
  Forall (fun chainName =>
            iptables.chain_exists chainName iptables.Filter (iptables.backend w) = true)
    chainNames →
  verify_chains chainNames w = (None, w).
Proof.
  induction 1 as [|c chainNames Hc _ IH]; simpl; [done|].
  unfold bind, chainExists, iptables.ExistChain. by rewrite Hc.
Qed.

(** X2.  [applyFiltering] of a filter with a configuration returns nil
    exactly when CONTAINERS and CONTAINER-REJECT both exist and every rule
    of the program succeeds in turn; the backend has then been given the
    whole program, and nothing else. *)
Theorem applyFiltering_succeeds (n : netFilter) (allowlist : netFilterConfig)
    (w w' : iptables.World St) :
  config n = Some allowlist →
  applyFiltering n w = (None, w')
  ↔ iptables.chain_exists "CONTAINERS" iptables.Filter (iptables.backend w) = true
    ∧ iptables.chain_exists "CONTAINER-REJECT" iptables.Filter (iptables.backend w) = true
    ∧ all_succeed (rules (applyFiltering_rules (ifaceName n) allowlist))
        (iptables.backend w)
    ∧ w' = {| iptables.backend :=
                execute_all (rules (applyFiltering_rules (ifaceName n) allowlist))
                  (iptables.backend w);
              iptables.executed :=
                iptables.executed w
                ++ rules (applyFiltering_rules (ifaceName n) allowlist) |}.
Proof.
  intros Hconfig. unfold applyFiltering. rewrite Hconfig.
  set (ops := rules (applyFiltering_rules (ifaceName n) allowlist)).
  unfold bind at 1.
  destruct (iptables.chain_exists "CONTAINERS" iptables.Filter (iptables.backend w))
    eqn:Hc1.
  2: { destruct (verify_chains_missing [containersChainName; containerRejectChainName] w)
         as (c & _ & _ & ->); [by left|]. split; [done|]. by intros [? _]. }
  destruct (iptables.chain_exists "CONTAINER-REJECT" iptables.Filter (iptables.backend w))
    eqn:Hc2.
  2: { destruct (verify_chains_missing [containersChainName; containerRejectChainName] w)
         as (c & _ & _ & ->); [right; by left|]. split; [done|]. by intros (_ & ? & _). }
  rewrite verify_chains_found by (repeat constructor; done).
  unfold bind, iptablesRules_apply. fold ops.
  destruct (all_succeed_dec ops (iptables.backend w)) as [Hall|Hnot].
  - rewrite apply_loop_succeed by done. unfold ret. split.
    + intros [= <-]. by repeat split.
    + by intros (_ & _ & _ & ->).
  - destruct (first_failure _ _ Hnot) as (pre & op & post & out & err & Hops & Hpre & Hop).
    rewrite Hops at 1. rewrite (apply_loop_fail _ _ _ _ _ _ Hpre Hop). unfold ret.
    split; [done|]. intros (_ & _ & Hall & _). by destruct Hnot.
Qed.

End prefix.

(** ** Splitting at a byte *)

Lemma rev_app_append (x y : string) : String.rev_app x y = String.rev x +:+ y.
Proof.
  unfold String.rev. revert y.
  induction x as [|c x IH]; intros y; simpl; [done|].
  rewrite (IH (String c "")), IH. clear IH.
  generalize (String.rev_app x "") as z.
  induction z as [|d z IH]; simpl; [done|]. unfold String.app in *. simpl.
  by rewrite IH.
Qed.

Lemma append_assoc (x y z : string) : (x +:+ y) +:+ z = x +:+ (y +:+ z).
Proof. induction x as [|c x IH]; simpl; [done|]. unfold String.app in *. simpl. by rewrite IH. Qed.

Lemma rev_cons (c : ascii) (x : string) : String.rev (String c x) = String.rev x +:+ String c "".
Proof. unfold String.rev at 1. simpl. apply rev_app_append. Qed.

(** One round of [Split_go] for a separator of one byte. *)
Lemma Split_go_byte (c c' : ascii) (cur s : string) :
  strings.Split_go (String c "") 0 cur (String c' s)
  = if Ascii.eqb c' c
    then String.rev cur :: strings.Split_go (String c "") 0 "" s
    else strings.Split_go (String c "") 0 (String c' cur) s.
Proof. simpl. destruct (Ascii.eqb c' c); [by destruct s|done]. Qed.

Lemma concat_cons (sep x : string) (xs : list string) :
  xs ≠ [] → String.concat sep (x :: xs) = x +:+ sep +:+ String.concat sep xs.
Proof. by destruct xs. Qed.

Lemma Split_go_concat (c : ascii) (s : string) :
  ∀ cur, String.concat (String c "") (strings.Split_go (String c "") 0 cur s)
         = String.rev cur +:+ s.
Proof.
  induction s as [|c' s IH]; intros cur.
  - simpl. generalize (String.rev cur). clear. intros x.
    induction x as [|d x IH]; [done|]. unfold String.app in *. simpl. by rewrite <- IH.
  - rewrite Split_go_byte. destruct (Ascii.eqb c' c) eqn:E.
    + apply Ascii.eqb_eq in E as ->.
      rewrite concat_cons by apply Split_go_nonempty. by rewrite IH.
    + rewrite IH, rev_cons, append_assoc. done.
Qed.

(** Joining the pieces with the separator gives the string back. *)
Lemma Split_concat (c : ascii) (s : string) :
  String.concat (String c "") (strings.Split s (String c "")) = s.
Proof. unfold strings.Split. by rewrite Split_go_concat. Qed.

Lemma Contains_byte (c c' : ascii) (s : string) :
  strings.Contains (String c' s) (String c "")
  = Ascii.eqb c' c || strings.Contains s (String c "").
Proof. simpl. destruct (Ascii.eqb c' c); [by destruct s|done]. Qed.

Lemma Contains_byte_app (c : ascii) (x y : string) :
  strings.Contains (x +:+ y) (String c "")
  = strings.Contains x (String c "") || strings.Contains y (String c "").
Proof.
  induction x as [|d x IH]; [done|].
  change (String d x +:+ y) with (String d (x +:+ y)).
  rewrite !Contains_byte, IH. by rewrite orb_assoc.
Qed.

(** No piece holds the separator. *)
Lemma Split_go_free (c : ascii) (s : string) :
  ∀ cur, strings.Contains (String.rev cur) (String c "") = false →
         Forall (fun piece => strings.Contains piece (String c "") = false)
           (strings.Split_go (String c "") 0 cur s).
Proof.
  induction s as [|c' s IH]; intros cur Hcur.
  - by constructor.
  - rewrite Split_go_byte. destruct (Ascii.eqb c' c) eqn:E.
    + constructor; [done|]. by apply IH.
    + apply IH. rewrite rev_cons, Contains_byte_app, Hcur, Contains_byte, E. done.
Qed.

Lemma Split_free (c : ascii) (s : string) :
  Forall (fun piece => strings.Contains piece (String c "") = false)
    (strings.Split s (String c "")).
Proof. by apply Split_go_free. Qed.

Lemma Split_go_no_byte (c : ascii) (s : string) :
  strings.Contains s (String c "") = false →
  ∀ cur, strings.Split_go (String c "") 0 cur s = [String.rev cur +:+ s].
Proof.
  induction s as [|c' s IH]; intros Hs cur.
  - simpl. f_equal. generalize (String.rev cur). clear. intros x.
    induction x as [|d x IH]; [done|]. unfold String.app in *. simpl. by rewrite <- IH.
  - rewrite Contains_byte in Hs. apply orb_false_iff in Hs as [E Hs].
    rewrite Split_go_byte, E, IH, rev_cons, append_assoc by done. done.
Qed.

Lemma Split_go_at_byte (c : ascii) (a rest : string) :
  strings.Contains a (String c "") = false →
  ∀ cur, strings.Split_go (String c "") 0 cur (a +:+ String c rest)
         = (String.rev cur +:+ a) :: strings.Split_go (String c "") 0 "" rest.
Proof.
  induction a as [|c' a IH]; intros Ha cur.
  - change ("" +:+ String c rest) with (String c rest).
    rewrite Split_go_byte, Ascii.eqb_refl. f_equal.
    generalize (String.rev cur). clear. intros x.
    induction x as [|d x IH]; [done|]. unfold String.app in *. simpl. by rewrite <- IH.
  - rewrite Contains_byte in Ha. apply orb_false_iff in Ha as [E Ha].
    change (String c' a +:+ String c rest) with (String c' (a +:+ String c rest)).
    rewrite Split_go_byte, E, IH, rev_cons, append_assoc by done. done.
Qed.

(** A string with one separator between two pieces that hold none splits
    into these two pieces. *)
Lemma Split_two (c : ascii) (a b : string) :
  strings.Contains a (String c "") = false →
  strings.Contains b (String c "") = false →
  strings.Split (a +:+ String c b) (String c "") = [a; b].
Proof.
  intros Ha Hb. unfold strings.Split.
  rewrite Split_go_at_byte, Split_go_no_byte by done. done.
Qed.

(** After a separator at the end comes one more piece, the empty one. *)
Lemma Split_go_trailing (c : ascii) (s : string) :
  ∀ cur, strings.Split_go (String c "") 0 cur (s +:+ String c "")
         = strings.Split_go (String c "") 0 cur s ++ [""].
Proof.
  induction s as [|c' s IH]; intros cur.
  - change ("" +:+ String c "") with (String c "").
    by rewrite Split_go_byte, Ascii.eqb_refl.
  - change (String c' s +:+ String c "") with (String c' (s +:+ String c "")).
    rewrite !Split_go_byte. destruct (Ascii.eqb c' c); by rewrite IH.
Qed.

(** ** More on the parser *)

Lemma NetFilterConfigParse_loop_order elements :
  ∀ config0 config,
    NetFilterConfigParse_loop config0 elements = (Some config, None) →
    allowedNets config = allowedNets config0 ++ nets_of elements
    ∧ allowedRanges config = allowedRanges config0 ++ ranges_of elements.
Proof.
  unfold nets_of, ranges_of.
  induction elements as [|e elements IH]; intros config0 config; simpl.
  - intros [= <-]. by rewrite !app_nil_r.
  - destruct (ParseIPOrNet (strings.TrimSpace e)) as [ipNet|].
    + intros [-> ->]%IH. simpl. by rewrite <- app_assoc.
    + destruct (ParseIPRange (strings.TrimSpace e)) as [ipRange|]; [|done].
      intros [-> ->]%IH. simpl. by rewrite <- app_assoc.
Qed.

(** X3.  A configuration [NetFilterConfigParse] returns holds the networks
    among the pieces of the string, in the order of the string, and the
    ranges among them, in the order of the string; how networks and ranges
    were interleaved is not kept. *)
Theorem NetFilterConfigParse_order (s : string) (config : netFilterConfig)
    (err : option string) :
  NetFilterConfigParse s = (Some config, err) →
  allowedNets config = nets_of (strings.Split s ",")
  ∧ allowedRanges config = ranges_of (strings.Split s ",")
  ∧ err = None.
Proof.
  unfold NetFilterConfigParse. destruct (negb _); [|done].
  intros Hloop.
  destruct (NetFilterConfigParse_loop_shape (strings.Split s ",")
              {| allowedNets := []; allowedRanges := [] |}) as [[config' H']|[msg H']];
    rewrite H' in Hloop; [|done].
  injection Hloop as -> <-.
  apply NetFilterConfigParse_loop_order in H' as [-> ->]. done.
Qed.

Lemma NetFilterConfigParse_order_witness :
  let s := "192.168.1.1-192.168.1.10, 10.0.0.0/24 ,10.0.0.1" in
  let config :=
    {| allowedNets :=
         [{| net.IPNet_IP := [10; 0; 0; 0]; net.IPNet_Mask := [255; 255; 255; 0] |};
          {| net.IPNet_IP := [10; 0; 0; 1]; net.IPNet_Mask := [255; 255; 255; 255] |}];
       allowedRanges :=
         [{| from := net.IPv4 192 168 1 1; to := net.IPv4 192 168 1 10 |}] |} in
  NetFilterConfigParse s = (Some config, None)
  ∧ allowedNets config = nets_of (strings.Split s ",")
  ∧ allowedRanges config = ranges_of (strings.Split s ",")
  ∧ (None : option string) = None.
Proof.
  intros s config.
  assert (NetFilterConfigParse s = (Some config, None)) as Hparse
    by (vm_compute; reflexivity).
  split; [assumption|].
  exact (NetFilterConfigParse_order s config None Hparse).
Defined.

Lemma unparsable_empty : unparsable "".
Proof. vm_compute. by split. Qed.

Lemma append_not_empty (s : string) (c : ascii) (rest : string) :
  s +:+ String c rest ≠ "".
Proof. by destruct s. Qed.

Lemma NetFilterConfigParse_unparsable (s token : string) :
  s ≠ "" → token ∈ strings.Split s "," → unparsable token →
  ∃ msg, NetFilterConfigParse s = (None, Some msg).
Proof.
  intros Hs Hin Hbad.
  destruct (first_unparsable _ _ Hin Hbad) as (pre & bad & post & Hsplit & Hpre & Hb).
  rewrite NetFilterConfigParse_nonempty, Hsplit by done.
  rewrite NetFilterConfigParse_loop_first_bad by done. by eexists.
Qed.

Lemma Split_go_double (c : ascii) (s rest : string) :
  ∀ cur, "" ∈ strings.Split_go (String c "") 0 cur (s +:+ String c (String c rest)).
Proof.
  induction s as [|c' s IH]; intros cur.
  - change ("" +:+ String c (String c rest)) with (String c (String c rest)).
    rewrite !Split_go_byte, !Ascii.eqb_refl. right. by left.
  - change (String c' s +:+ String c (String c rest))
      with (String c' (s +:+ String c (String c rest))).
    rewrite Split_go_byte. destruct (Ascii.eqb c' c); [right|]; apply IH.
Qed.

(** X4.  An empty piece spoils the whole string: [NetFilterConfigParse]
    returns an error, and no configuration, for every string that ends with
    a comma, that begins with a comma, or that has two commas in a row. *)
Theorem NetFilterConfigParse_empty_piece (s rest : string) :
  (∃ msg, NetFilterConfigParse (s +:+ ",") = (None, Some msg))
  ∧ (∃ msg, NetFilterConfigParse ("," +:+ s) = (None, Some msg))
  ∧ (∃ msg, NetFilterConfigParse (s +:+ ",," +:+ rest) = (None, Some msg)).
Proof.
  split; [|split].
  - apply (NetFilterConfigParse_unparsable _ "");
      [apply append_not_empty| |apply unparsable_empty].
    unfold strings.Split. rewrite Split_go_trailing.
    apply elem_of_app. right. by left.
  - apply (NetFilterConfigParse_unparsable _ ""); [done| |apply unparsable_empty].
    change ("," +:+ s) with (String "," s). unfold strings.Split.
    rewrite Split_go_byte. by left.
  - apply (NetFilterConfigParse_unparsable _ "");
      [apply append_not_empty| |apply unparsable_empty].
    apply Split_go_double.
Qed.

(** X5.  [ParseIPRange] takes exactly the strings made of two pieces
    without '-', one '-' between them, each of which [net.ParseIP] takes
    once the white space around it is trimmed; the two addresses are the
    ends of the range as they come: no order between them is asked for, so
    that swapping the two pieces gives a range again. *)
Theorem ParseIPRange_iff (s : string) :
  (∀ r, ParseIPRange s = Some r
        ↔ ∃ a b, s = a +:+ "-" +:+ b
                 ∧ strings.Contains a "-" = false
                 ∧ strings.Contains b "-" = false
                 ∧ net.ParseIP (strings.TrimSpace a) = Some (from r)
                 ∧ net.ParseIP (strings.TrimSpace b) = Some (to r))
  ∧ (∀ a b r, strings.Contains a "-" = false → strings.Contains b "-" = false →
              ParseIPRange (a +:+ "-" +:+ b) = Some r →
              ParseIPRange (b +:+ "-" +:+ a) = Some {| from := to r; to := from r |}).
Proof.
  assert (∀ a b, strings.Contains a "-" = false → strings.Contains b "-" = false →
                 ParseIPRange (a +:+ "-" +:+ b)
                 = match net.ParseIP (strings.TrimSpace a),
                         net.ParseIP (strings.TrimSpace b) with
                   | Some ip0, Some ip1 => Some {| from := ip0; to := ip1 |}
                   | _, _ => None
                   end) as Htwo.
  { intros a b Ha Hb. unfold ParseIPRange.
    change (a +:+ "-" +:+ b) with (a +:+ String "-" b).
    rewrite (Split_two "-" a b Ha Hb). simpl.
    by destruct (net.ParseIP (strings.TrimSpace a)),
                (net.ParseIP (strings.TrimSpace b)). }
  assert (∀ r, ParseIPRange s = Some r →
               ∃ a b, s = a +:+ "-" +:+ b
                      ∧ strings.Contains a "-" = false
                      ∧ strings.Contains b "-" = false
                      ∧ net.ParseIP (strings.TrimSpace a) = Some (from r)
                      ∧ net.ParseIP (strings.TrimSpace b) = Some (to r)) as Hparts.
  { intros r. unfold ParseIPRange.
    pose proof (Split_concat "-" s) as Hconcat.
    pose proof (Split_free "-" s) as Hfree.
    destruct (strings.Split s "-") as [|a [|b [|]]]; try done.
    apply Forall_cons in Hfree as [Ha Hfree]. apply Forall_cons in Hfree as [Hb _].
    simpl in Hconcat. simpl.
    destruct (net.ParseIP (strings.TrimSpace a)) as [ip0|] eqn:E0; [|done].
    destruct (net.ParseIP (strings.TrimSpace b)) as [ip1|] eqn:E1; [|done].
    intros [= <-]. by exists a, b. }
  split.
  - intros r. split; [apply Hparts|].
    intros (a & b & -> & Ha & Hb & Hfrom & Hto).
    rewrite Htwo, Hfrom, Hto by done. by destruct r.
  - intros a b r Ha Hb. rewrite !Htwo by done.
    destruct (net.ParseIP (strings.TrimSpace a)) as [ip0|]; [|done].
    destruct (net.ParseIP (strings.TrimSpace b)) as [ip1|]; [|done].
    by intros [= <-].
Qed.

(** ** The chains the programs work on *)

Lemma vethChainName_inj (a b : string) :
  vethChainPrefix +:+ a = vethChainPrefix +:+ b → a = b.
Proof. apply String.app_inj. Qed.

(** X6.  Every rule of the programs of [applyFiltering] and of
    [removeFiltering] for an interface works on CONTAINERS or on the chain
    of that interface; the chains of two interfaces are the same only when
    the interfaces are, and the chain of an interface is never CONTAINERS;
    it is CONTAINER-REJECT for the interface named REJECT and for no
    other. *)
Theorem programs_chains (ifaceName : string) (allowlist : netFilterConfig) :
  (∀ op, op ∈ rules (applyFiltering_rules ifaceName allowlist)
              ++ rules (removeFiltering_rules ifaceName) →
         op !! 1%nat = Some containersChainName
         ∨ op !! 1%nat = Some (vethChainPrefix +:+ ifaceName))
  ∧ (∀ other, vethChainPrefix +:+ ifaceName = vethChainPrefix +:+ other →
              ifaceName = other)
  ∧ vethChainPrefix +:+ ifaceName ≠ containersChainName
  ∧ (vethChainPrefix +:+ ifaceName = containerRejectChainName ↔ ifaceName = "REJECT").
Proof.
  split; [|split; [|split]].
  - intros op. rewrite applyFiltering_rules_eq, removeFiltering_rules_eq.
    rewrite !elem_of_app, !elem_of_cons, !elem_of_app, !list_elem_of_fmap.
    rewrite !elem_of_cons, !elem_of_nil.
    intros [[->|[(ipNet & -> & _)|[(ipRange & -> & _)|[->|[->|[]]]]]]
           |[->|[->|[->|[]]]]]; by (left + right).
  - apply vethChainName_inj.
  - apply vethChainName_not_base.
  - split; [|by intros ->].
    intros Heq. by apply (vethChainName_inj ifaceName "REJECT").
Qed.

(** X7.  The rule [removeFiltering] deletes from CONTAINERS is, argument by
    argument, the rule [applyFiltering] inserts there last, whatever the
    interface and the configuration. *)
Theorem remove_deletes_inserted (ifaceName : string) (allowlist : netFilterConfig) :
  ∃ spec,
    last (rules (applyFiltering_rules ifaceName allowlist))
    = Some ("-I" :: "CONTAINERS" :: "1" :: spec)
    ∧ head (rules (removeFiltering_rules ifaceName))
      = Some ("-D" :: "CONTAINERS" :: spec).
Proof.
  exists ["-o"; ifaceName; "-j"; "CONTAINER-" +:+ ifaceName].
  rewrite applyFiltering_rules_eq, removeFiltering_rules_eq. split; [|done].
  rewrite !app_comm_cons, !app_assoc.
  change [?x; ?y] with ([x] ++ [y]). rewrite app_assoc. apply last_snoc.
Qed.

(** ** The networks the parser returns *)

Lemma CIDRMask_loop_length l : ∀ n, length (net.CIDRMask_loop l n) = l.
Proof.
  induction l as [|l IH]; intros n; simpl; [done|].
  destruct (8 <=? n); simpl; by rewrite IH.
Qed.

Lemma CIDRMask_length ones bits :
  (bits = 32 ∨ bits = 128) → 0 ≤ ones ≤ bits →
  Z.of_nat (length (net.CIDRMask ones bits)) = bits / 8.
Proof.
  intros Hbits Hones. unfold net.CIDRMask.
  assert ((ones <? 0) || (bits <? ones) = false) as ->.
  { apply orb_false_iff. split; [apply Z.ltb_ge|apply Z.ltb_ge]; lia. }
  destruct Hbits as [-> | ->].
  - change (negb (32 =? 8 * Z.of_nat net.IPv4len)) with false.
    cbn [andb]. by rewrite CIDRMask_loop_length.
  - change (negb (128 =? 8 * Z.of_nat net.IPv6len)) with false.
    rewrite andb_false_r. by rewrite CIDRMask_loop_length.
Qed.

Lemma zip_with_land_idemp (ip mask : list Z) :
  zip_with Z.land (zip_with Z.land ip mask) mask = zip_with Z.land ip mask.
Proof.
  revert mask; induction ip as [|a ip IH]; intros [|m mask]; simpl; try done.
  by rewrite IH, <- Z.land_assoc, Z.land_diag.
Qed.

Lemma ParseCIDR_canonical (s : string) (ip : list Z) (n : net.IPNet) :
  net.ParseCIDR s = Some (ip, n) → canonical_net n.
Proof.
  unfold net.ParseCIDR.
  destruct (net.byteIndex s "/") as [i|]; [|done].
  set (addr := net.slice_to i s). set (mask := slice_from (S i) s).
  destruct (net.dtoi mask) as [[ones c] ok].
  destruct (net.parseIPv4 addr) as [ip4|] eqn:E4.
  - destruct (negb ok || negb (c =? len mask)%nat || (ones <? 0)
              || (8 * Z.of_nat net.IPv4len <? ones)) eqn:Hcheck; [done|].
    intros [= <- <-].
    apply orb_false_iff in Hcheck as [Hcheck Hle].
    apply orb_false_iff in Hcheck as [_ Hge].
    apply Z.ltb_ge in Hle, Hge. change (8 * Z.of_nat net.IPv4len) with 32 in *.
    apply parseIPv4_octets in E4 as (a & b & c' & d & -> & _).
    pose proof (CIDRMask_length ones 32 (or_introl eq_refl) (conj Hge Hle)) as Hlen.
    assert (length (net.CIDRMask ones 32) = 4%nat) as Hl
      by (apply Nat2Z.inj; exact Hlen).
    exists ones, 32. cbn [net.IPNet_IP net.IPNet_Mask].
    assert (net.IP_Mask (net.IPv4 a b c' d) (net.CIDRMask ones 32)
            = zip_with Z.land [a; b; c'; d] (net.CIDRMask ones 32)) as ->.
    { unfold net.IP_Mask, net.IPv4len, net.IPv6len.
      rewrite Hl. cbn. rewrite bool_decide_true by done. cbn. by rewrite Hl. }
    split; [by left|]. split; [done|]. split; [done|].
    split; [by rewrite length_zip_with, Hl|].
    split; [done|]. apply zip_with_land_idemp.
  - destruct (net.parseIPv6 addr) as [ip6|] eqn:E6; [|done].
    destruct (negb ok || negb (c =? len mask)%nat || (ones <? 0)
              || (8 * Z.of_nat net.IPv6len <? ones)) eqn:Hcheck; [done|].
    intros [= <- <-].
    apply orb_false_iff in Hcheck as [Hcheck Hle].
    apply orb_false_iff in Hcheck as [_ Hge].
    apply Z.ltb_ge in Hle, Hge. change (8 * Z.of_nat net.IPv6len) with 128 in *.
    apply parseIPv6_length in E6.
    pose proof (CIDRMask_length ones 128 (or_intror eq_refl) (conj Hge Hle)) as Hlen.
    assert (length (net.CIDRMask ones 128) = 16%nat) as Hl
      by (apply Nat2Z.inj; exact Hlen).
    exists ones, 128. cbn [net.IPNet_IP net.IPNet_Mask].
    rewrite IP_Mask_IPv6 by done.
    split; [by right|]. split; [done|]. split; [done|].
    split; [by rewrite length_zip_with, Hl, E6|].
    split; [done|]. apply zip_with_land_idemp.
Qed.

Lemma ParseIPOrNet_canonical (s : string) (n : net.IPNet) :
  ParseIPOrNet s = Some n → canonical_net n.
Proof.
  unfold ParseIPOrNet.
  destruct (net.ParseCIDR _) as [[ip n']|] eqn:E; [|done].
  intros [= <-]. by eapply ParseCIDR_canonical.
Qed.

(** X8.  Every network of a configuration [NetFilterConfigParse] returns
    has an address of 4 or of 16 bytes, the mask of a prefix length over as
    many bytes, and an address without a bit outside the mask: the bits of
    the host are cleared, as in 10.0.0.77/24, kept as 10.0.0.0/24. *)
Theorem NetFilterConfigParse_canonical (s : string) (config : netFilterConfig)
    (err : option string) :
  NetFilterConfigParse s = (Some config, err) →
  Forall canonical_net (allowedNets config).
Proof.
  unfold NetFilterConfigParse. destruct (negb _); [|done].
  intros Hloop.
  destruct (NetFilterConfigParse_loop_shape (strings.Split s ",")
              {| allowedNets := []; allowedRanges := [] |}) as [[config' H']|[msg H']];
    rewrite H' in Hloop; [|done].
  injection Hloop as -> <-.
  apply NetFilterConfigParse_loop_order in H' as [-> _]. simpl.
  unfold nets_of. apply Forall_forall. intros n Hn.
  apply list_elem_of_omap in Hn as (e & _ & Hn).
  by eapply ParseIPOrNet_canonical.
Qed.

Lemma NetFilterConfigParse_canonical_witness :
  let config :=
    {| allowedNets :=
         [{| net.IPNet_IP := [10; 0; 0; 0]; net.IPNet_Mask := [255; 255; 255; 0] |}];
       allowedRanges := [] |} in
  NetFilterConfigParse "10.0.0.77/24" = (Some config, None)
  ∧ Forall canonical_net (allowedNets config).
Proof.
  intros config.
  assert (NetFilterConfigParse "10.0.0.77/24" = (Some config, None)) as Hparse
    by (vm_compute; reflexivity).
  split; [assumption|].
  exact (NetFilterConfigParse_canonical "10.0.0.77/24" config None Hparse).
Defined.

(** ** The programs on the chains of the filter table *)

Section table.

Implicit Types (st : gmap string (list (list string))) (ops : list (list string)).

#[local] Arguments filter_table.exec : simpl never.

Lemma runs_nil st : runs [] st st.
Proof. by split. Qed.

Lemma runs_cons op ops st st1 st2 out :
  filter_table.exec op st = ((out, None), st1) → runs ops st1 st2 →
  runs (op :: ops) st st2.
Proof.
  intros Hop [Hall Hst]. split.
  - simpl. change (iptables.execute op st) with (filter_table.exec op st).
    by rewrite Hop.
  - unfold execute_all in *. simpl.
    change (iptables.execute op st) with (filter_table.exec op st). by rewrite Hop.
Qed.

Lemma runs_app ops1 ops2 st st1 st2 :
  runs ops1 st st1 → runs ops2 st1 st2 → runs (ops1 ++ ops2) st st2.
Proof.
  intros [Hall1 <-] [Hall2 <-]. split.
  - by apply all_succeed_app.
  - apply execute_all_app.
Qed.

Lemma exec_new chain st :
  st !! chain = None →
  filter_table.exec ["-N"; chain] st = (("", None), <[chain := []]> st).
Proof.
  intros Hchain. unfold filter_table.exec.
  change (String.eqb "-N" "-N") with true. cbv iota. by rewrite Hchain.
Qed.


Lemma exec_append chain spec rs st :
  st !! chain = Some rs →
  filter_table.exec ("-A" :: chain :: spec) st = (("", None), <[chain := rs ++ [spec]]> st).
Proof.
  intros Hchain. unfold filter_table.exec.
  change (String.eqb "-A" "-N") with false. change (String.eqb "-A" "-F") with false.
  change (String.eqb "-A" "-X") with false. change (String.eqb "-A" "-A") with true.
  cbv iota. by rewrite Hchain.
Qed.

Lemma exec_insert_head chain spec rs st :
  st !! chain = Some rs →
  filter_table.exec ("-I" :: chain :: "1" :: spec) st
  = (("", None), <[chain := spec :: rs]> st).
Proof.
  intros Hchain. unfold filter_table.exec.
  change (String.eqb "-I" "-N") with false. change (String.eqb "-I" "-F") with false.
  change (String.eqb "-I" "-X") with false. change (String.eqb "-I" "-A") with false.
  change (String.eqb "-I" "-I") with true.
  change (filter_table.rulenum "1") with (Some 1%nat). cbv iota. rewrite Hchain.
  change (1 <=? 1)%nat with true.
  destruct (1 <=? length rs + 1)%nat eqn:E; [done|].
  apply Nat.leb_gt in E. lia.
Qed.


Lemma exec_delete_missing chain spec st :
  spec ∉ default [] (st !! chain) →
  ∃ out, filter_table.exec ("-D" :: chain :: spec) st = ((out, Some "exit status 1"), st).
Proof.
  intros Hin. unfold filter_table.exec.
  change (String.eqb "-D" "-N") with false. change (String.eqb "-D" "-F") with false.
  change (String.eqb "-D" "-X") with false. change (String.eqb "-D" "-A") with false.
  change (String.eqb "-D" "-I") with false. change (String.eqb "-D" "-D") with true.
  cbv iota. destruct (st !! chain) as [rs|]; [|by eexists].
  simpl in Hin. rewrite bool_decide_false by done. by eexists.
Qed.



(** Appending rules one after the other to a chain that exists. *)
Lemma runs_appends {A} (f : A → list string) chain (l : list A) :
  ∀ rs st,
    runs (map (fun x => "-A" :: chain :: f x) l) (<[chain := rs]> st)
      (<[chain := rs ++ map f l]> st).
Proof.
  induction l as [|x l IH]; intros rs st; simpl.
  - rewrite app_nil_r. apply runs_nil.
  - eapply runs_cons.
    + apply exec_append. apply lookup_insert_eq.
    + rewrite insert_insert_eq.
      replace (rs ++ f x :: map f l) with ((rs ++ [f x]) ++ map f l)
        by (by rewrite <- app_assoc).
      apply IH.
Qed.

(** The program of [applyFiltering] on a table with CONTAINERS and without
    the chain of the interface. *)
Lemma applyFiltering_rules_run (ifaceName : string) (allowlist : netFilterConfig)
    st (base : list (list string)) :
  st !! "CONTAINERS" = Some base →
  st !! ("CONTAINER-" +:+ ifaceName) = None →
  runs (rules (applyFiltering_rules ifaceName allowlist)) st
    (<["CONTAINERS" := ["-o"; ifaceName; "-j"; "CONTAINER-" +:+ ifaceName] :: base]>
       (<["CONTAINER-" +:+ ifaceName := chain_rules allowlist]> st)).
Proof.
  intros Hbase Hfresh. rewrite applyFiltering_rules_eq.
  set (chain := "CONTAINER-" +:+ ifaceName) in *.
  assert (chain ≠ "CONTAINERS") as Hne by apply vethChainName_not_base.
  eapply runs_cons; [by apply exec_new|].
  unfold chain_rules.
  eapply runs_app.
  { apply (runs_appends
             (fun ipNet => ["-s"; net.IPNet_String ipNet; "-j"; "ACCEPT"])). }
  eapply runs_app.
  { apply (runs_appends
             (fun ipRange => ["-m"; "iprange"; "--src-range"; IPRange_String ipRange;
                              "-j"; "ACCEPT"])). }
  eapply runs_cons.
  { apply exec_append. apply lookup_insert_eq. }
  rewrite insert_insert_eq.
  eapply runs_cons; [|apply runs_nil].
  rewrite <- !app_assoc. simpl.
  apply exec_insert_head. by rewrite lookup_insert_ne.
Qed.


Lemma has_chain_found chain st :
  is_Some (st !! chain) →
  iptables.chain_exists chain iptables.Filter st = true.
Proof. intros Hsome. simpl. by apply bool_decide_eq_true. Qed.

Lemma applyFiltering_checked (n : netFilter) (allowlist : netFilterConfig)
    (w : iptables.World (gmap string (list (list string)))) :
  config n = Some allowlist →
  is_Some (iptables.backend w !! "CONTAINERS") →
  is_Some (iptables.backend w !! "CONTAINER-REJECT") →
  applyFiltering n w
  = (fst (apply_loop (rules (applyFiltering_rules (ifaceName n) allowlist)) w),
     snd (apply_loop (rules (applyFiltering_rules (ifaceName n) allowlist)) w)).
Proof.
  intros Hconfig Hc1 Hc2. unfold applyFiltering. rewrite Hconfig.
  unfold bind at 1. rewrite verify_chains_found.
  - unfold bind, iptablesRules_apply.
    destruct (apply_loop _ w) as [[e|] w']; done.
  - repeat constructor; by apply has_chain_found.
Qed.

(** X9.  On the chains of the filter table: when CONTAINERS and
    CONTAINER-REJECT exist and the chain of the interface does not,
    [applyFiltering] of a filter with a configuration succeeds; it leaves
    the chain of the interface with the accept rules of the networks, then
    those of the ranges, in their order, and the jump to CONTAINER-REJECT
    last, and CONTAINERS with the jump to that chain in front of the rules
    it had; every other chain is as it was. *)
Theorem applyFiltering_fresh (n : netFilter) (allowlist : netFilterConfig)
    (w : iptables.World (gmap string (list (list string)))) (base : list (list string)) :
  config n = Some allowlist →
  iptables.backend w !! "CONTAINERS" = Some base →
  is_Some (iptables.backend w !! "CONTAINER-REJECT") →
  iptables.backend w !! ("CONTAINER-" +:+ ifaceName n) = None →
  applyFiltering n w
  = (None,
     {| iptables.backend :=
          <["CONTAINERS" :=
              ["-o"; ifaceName n; "-j"; "CONTAINER-" +:+ ifaceName n] :: base]>
            (<["CONTAINER-" +:+ ifaceName n := chain_rules allowlist]>
               (iptables.backend w));
        iptables.executed :=
          iptables.executed w ++ rules (applyFiltering_rules (ifaceName n) allowlist) |}).
Proof.
  intros Hconfig Hbase Hreject Hfresh.
  rewrite (applyFiltering_checked n allowlist) by done.
  destruct (applyFiltering_rules_run (ifaceName n) allowlist _ _ Hbase Hfresh)
    as [Hall Hst].
  rewrite apply_loop_succeed by done. cbn [fst snd]. by rewrite Hst.
Qed.

Lemma applyFiltering_fresh_witness :
  let w := filter_table.world filter_table.base in
  config filter_ex = Some allowlist_ex
  ∧ iptables.backend w !! "CONTAINERS" = Some [["-o"; "veth0"; "-j"; "CONTAINER-veth0"]]
  ∧ is_Some (iptables.backend w !! "CONTAINER-REJECT")
  ∧ iptables.backend w !! ("CONTAINER-" +:+ ifaceName filter_ex) = None
  ∧ applyFiltering filter_ex w
    = (None,
       {| iptables.backend :=
            <["CONTAINERS" :=
                ["-o"; ifaceName filter_ex; "-j"; "CONTAINER-" +:+ ifaceName filter_ex]
                :: [["-o"; "veth0"; "-j"; "CONTAINER-veth0"]]]>
              (<["CONTAINER-" +:+ ifaceName filter_ex := chain_rules allowlist_ex]>
                 (iptables.backend w));
          iptables.executed :=
            iptables.executed w
            ++ rules (applyFiltering_rules (ifaceName filter_ex) allowlist_ex) |}).
Proof.
  intros w.
  assert (config filter_ex = Some allowlist_ex) as Hconfig by reflexivity.
  assert (iptables.backend w !! "CONTAINERS"
          = Some [["-o"; "veth0"; "-j"; "CONTAINER-veth0"]]) as Hbase
    by (vm_compute; reflexivity).
  assert (is_Some (iptables.backend w !! "CONTAINER-REJECT")) as Hreject
    by (vm_compute; eexists; reflexivity).
  assert (iptables.backend w !! ("CONTAINER-" +:+ ifaceName filter_ex) = None) as Hfresh
    by (vm_compute; reflexivity).
  do 4 (split; [assumption|]).
  exact (applyFiltering_fresh filter_ex allowlist_ex w _ Hconfig Hbase Hreject Hfresh).
Defined.

Lemma apply_loop_first_fails op post out err st'
    (w : iptables.World (gmap string (list (list string)))) :
  filter_table.exec op (iptables.backend w) = ((out, Some err), st') →
  apply_loop (op :: post) w
  = (Some (rule_failed op out err),
     {| iptables.backend := st'; iptables.executed := iptables.executed w ++ [op] |}).
Proof.
  intros Hop.
  pose proof (apply_loop_fail [] op post out err w I) as Hfail.
  cbn [execute_all fold_left app] in Hfail.
  change (iptables.execute op (iptables.backend w))
    with (filter_table.exec op (iptables.backend w)) in Hfail.
  rewrite Hop in Hfail. by apply Hfail.
Qed.





(** X11.  On the chains of the filter table: when the jump to the chain of
    the interface is not among the rules of CONTAINERS (the filter was
    never applied, or it has been removed already, or CONTAINERS does not
    exist), [removeFiltering] of a filter with a configuration fails at its
    first command: it returns the error of that command, the table is as it
    was, and the chain of the interface, if there is one, is neither
    flushed nor deleted. *)
Theorem removeFiltering_not_applied (n : netFilter)
    (w : iptables.World (gmap string (list (list string)))) :
  config n ≠ None →
  ["-o"; ifaceName n; "-j"; "CONTAINER-" +:+ ifaceName n]
    ∉ default [] (iptables.backend w !! "CONTAINERS") →
  ∃ out,
    removeFiltering n w
    = (Some ("NetFilter. IP tables apply rule failed "
             +:+ fmt.verb_s_slice
                   ["-D"; "CONTAINERS"; "-o"; ifaceName n; "-j";
                    "CONTAINER-" +:+ ifaceName n]
             +:+ " " +:+ out +:+ " " +:+ "exit status 1"),
       {| iptables.backend := iptables.backend w;
          iptables.executed :=
            iptables.executed w
            ++ [["-D"; "CONTAINERS"; "-o"; ifaceName n; "-j";
                 "CONTAINER-" +:+ ifaceName n]] |}).
Proof.
  intros Hconfig Hjump. unfold removeFiltering.
  destruct (config n) as [allowlist|]; [clear Hconfig|done].
  unfold iptablesRules_apply. rewrite removeFiltering_rules_eq.
  destruct (exec_delete_missing _ _ _ Hjump) as [out Hdelete].
  exists out. by rewrite (apply_loop_first_fails _ _ _ _ _ _ Hdelete).
Qed.

Lemma removeFiltering_not_applied_witness :
  let w := filter_table.world filter_table.base in
  config filter_ex ≠ None
  ∧ (["-o"; ifaceName filter_ex; "-j"; "CONTAINER-" +:+ ifaceName filter_ex]
       ∉ default [] (iptables.backend w !! "CONTAINERS"))
  ∧ ∃ out,
      removeFiltering filter_ex w
      = (Some ("NetFilter. IP tables apply rule failed "
               +:+ fmt.verb_s_slice
                     ["-D"; "CONTAINERS"; "-o"; ifaceName filter_ex; "-j";
                      "CONTAINER-" +:+ ifaceName filter_ex]
               +:+ " " +:+ out +:+ " " +:+ "exit status 1"),
         {| iptables.backend := iptables.backend w;
            iptables.executed :=
              iptables.executed w
              ++ [["-D"; "CONTAINERS"; "-o"; ifaceName filter_ex; "-j";
                   "CONTAINER-" +:+ ifaceName filter_ex]] |}).
Proof.
  intros w.
  assert (config filter_ex ≠ None) as Hconfig by discriminate.
  assert (["-o"; ifaceName filter_ex; "-j"; "CONTAINER-" +:+ ifaceName filter_ex]
            ∉ default [] (iptables.backend w !! "CONTAINERS")) as Hjump.
  { vm_compute. intros Hin. apply list_elem_of_singleton in Hin. discriminate Hin. }
  do 2 (split; [assumption|]).
  exact (removeFiltering_not_applied filter_ex w Hconfig Hjump).
Defined.



Lemma execute_all_none_on (k : string) ops :
  none_on k ops → ∀ st, execute_all ops st !! k = st !! k.
Proof.
  intros Hops. induction Hops as [|op ops (flag & other & rest & -> & Hother) _ IH];
    intros st; [done|].
  unfold execute_all in *. simpl. rewrite IH.
  change (iptables.execute ?op st) with (filter_table.exec op st).
  by apply exec_other_chain.
Qed.

Lemma programs_none_on (k ifaceName : string) (allowlist : netFilterConfig) :
  k ≠ "CONTAINERS" → k ≠ "CONTAINER-" +:+ ifaceName →
  none_on k (rules (applyFiltering_rules ifaceName allowlist))
  ∧ none_on k (rules (removeFiltering_rules ifaceName)).
Proof.
  intros Hk1 Hk2. rewrite applyFiltering_rules_eq, removeFiltering_rules_eq.
  unfold none_on. split.
  - apply Forall_cons. split; [by eexists _, _, _|].
    rewrite !Forall_app, !List.Forall_map. repeat split.
    + apply Forall_true. intros ipNet. by eexists _, _, _.
    + apply Forall_true. intros ipRange. by eexists _, _, _.
    + repeat constructor; by eexists _, _, _.
  - repeat constructor; by eexists _, _, _.
Qed.

Lemma apply_loop_none_on (k : string) ops
    (w : iptables.World (gmap string (list (list string)))) :
  none_on k ops →
  iptables.backend (snd (apply_loop ops w)) !! k = iptables.backend w !! k.
Proof.
  intros Hops. destruct (apply_loop_prefix ops w) as (j & _ & -> & _).
  cbn [iptables.backend]. apply execute_all_none_on.
  unfold none_on in *. by apply Forall_take.
Qed.

(** X13.  On the chains of the filter table: whether they succeed or fail,
    and wherever they stop, [applyFiltering] and [removeFiltering] leave
    every chain other than CONTAINERS and the chain of the interface as it
    was; the chains of the other interfaces among them. *)
Theorem filtering_frame (n : netFilter)
    (w : iptables.World (gmap string (list (list string)))) (k : string) :
  k ≠ "CONTAINERS" →
  k ≠ "CONTAINER-" +:+ ifaceName n →
  iptables.backend (snd (applyFiltering n w)) !! k = iptables.backend w !! k
  ∧ iptables.backend (snd (removeFiltering n w)) !! k = iptables.backend w !! k.
Proof.
  intros Hk1 Hk2. unfold applyFiltering, removeFiltering.
  destruct (config n) as [allowlist|]; [|done].
  destruct (programs_none_on k (ifaceName n) allowlist Hk1 Hk2) as [Happly Hremove].
  split; [|by apply apply_loop_none_on].
  unfold bind at 1.
  destruct (verify_chains _ w) as [[e|] w'] eqn:Hverify;
    apply verify_chains_world in Hverify as ->; [done|].
  unfold bind, iptablesRules_apply.
  pose proof (apply_loop_none_on k _ w Happly) as Hloop.
  by destruct (apply_loop _ w) as [[e|] w'].
Qed.

Lemma filtering_frame_witness :
  let w := filter_table.world filter_table.base in
  "CONTAINER-veth0" ≠ "CONTAINERS"
  ∧ "CONTAINER-veth0" ≠ "CONTAINER-" +:+ ifaceName filter_ex
  ∧ iptables.backend (snd (applyFiltering filter_ex w)) !! "CONTAINER-veth0"
    = iptables.backend w !! "CONTAINER-veth0"
  ∧ iptables.backend (snd (removeFiltering filter_ex w)) !! "CONTAINER-veth0"
    = iptables.backend w !! "CONTAINER-veth0".
Proof.
  intros w.
  assert ("CONTAINER-veth0" ≠ "CONTAINERS") as Hk1 by discriminate.
  assert ("CONTAINER-veth0" ≠ "CONTAINER-" +:+ ifaceName filter_ex) as Hk2
    by (vm_compute; discriminate).
  do 2 (split; [assumption|]).
  exact (filtering_frame filter_ex w "CONTAINER-veth0" Hk1 Hk2).
Defined.

End table.

(** ** A range, printed and parsed again *)

Lemma dtoi_loop_digits (d rest : string) :
  all_digits d = true → no_digit_ahead rest →
  ∀ n i, net.dtoi_loop (d +:+ rest) n i = net.dtoi_loop d n i.
Proof.
  unfold all_digits. intros Hd Hrest.
  induction d as [|c d IH]; intros n i.
  - change ("" +:+ rest) with rest. destruct rest as [|c rest]; [done|].
    simpl in *. by rewrite Hrest.
  - simpl in Hd. apply andb_true_iff in Hd as [Hc Hd].
    change (String c d +:+ rest) with (String c (d +:+ rest)). simpl.
    rewrite Hc. destruct (net.big <=? _); [done|]. by apply IH.
Qed.

(** The decimal form of a byte is made of digits, at least one, and [dtoi]
    reads the byte back from it. *)
Lemma uitoa_octet (v : Z) :
  octet v →
  all_digits (net.uitoa v) = true
  ∧ net.uitoa v ≠ ""
  ∧ net.dtoi (net.uitoa v) = (v, len (net.uitoa v), true).
Proof.
  intros Hv.
  assert (forallb
            (fun v => all_digits (net.uitoa v)
                      && negb (String.eqb (net.uitoa v) "")
                      && bool_decide (net.dtoi (net.uitoa v) = (v, len (net.uitoa v), true)))
            (map Z.of_nat (seq 0 256)) = true) as Hall by (vm_compute; reflexivity).
  rewrite forallb_forall in Hall.
  assert (In v (map Z.of_nat (seq 0 256))) as Hin.
  { apply in_map_iff. exists (Z.to_nat v). unfold octet in Hv.
    split; [lia|]. apply in_seq. lia. }
  apply Hall in Hin. apply andb_true_iff in Hin as [Hin Hdtoi].
  apply andb_true_iff in Hin as [Hd Hne].
  split; [done|]. split.
  - intros Heq. rewrite Heq in Hne. done.
  - by apply bool_decide_eq_true in Hdtoi.
Qed.

Lemma slice_from_len (s rest : string) : slice_from (len s) (s +:+ rest) = rest.
Proof. induction s as [|c s IH]; [by destruct rest|exact IH]. Qed.

Lemma append_empty_r (s : string) : s +:+ "" = s.
Proof. induction s as [|c s IH]; [done|]. unfold String.app in *. simpl. by rewrite IH. Qed.

(** One round of [parseIPv4] on the decimal form of a byte. *)
Lemma dtoi_uitoa (v : Z) (rest : string) :
  octet v → no_digit_ahead rest →
  net.dtoi (net.uitoa v +:+ rest) = (v, len (net.uitoa v), true).
Proof.
  intros Hv Hrest. destruct (uitoa_octet v Hv) as (Hd & _ & Hdtoi).
  unfold net.dtoi in *. by rewrite dtoi_loop_digits.
Qed.

Lemma parseIPv4_dotted (a b c d : Z) :
  octet a → octet b → octet c → octet d →
  net.parseIPv4 (net.uitoa a +:+ "." +:+ net.uitoa b +:+ "." +:+ net.uitoa c
                 +:+ "." +:+ net.uitoa d)
  = Some (net.IPv4 a b c d).
Proof.
  intros Ha Hb Hc Hd. unfold net.parseIPv4, net.IPv4len.
  destruct (uitoa_octet a Ha) as (_ & Hna & _), (uitoa_octet b Hb) as (_ & Hnb & _),
    (uitoa_octet c Hc) as (_ & Hnc & _), (uitoa_octet d Hd) as (_ & Hnd & _).
  assert (∀ v, octet v → (255 <? v) = false) as Hle
    by (intros v Hv; apply Z.ltb_ge; unfold octet in Hv; lia).
  assert (∀ v, octet v → v mod 256 = v) as Hmod
    by (intros v Hv; by apply Z.mod_small).
  assert (∀ s c r, s ≠ "" → (len (s +:+ String c r) =? 0)%nat = false) as Hlen
    by (intros [|] ? ? ?; done).
  change (net.uitoa a +:+ "." +:+ net.uitoa b +:+ "." +:+ net.uitoa c
          +:+ "." +:+ net.uitoa d)
    with (net.uitoa a +:+ String "." (net.uitoa b +:+ String "."
            (net.uitoa c +:+ String "." (net.uitoa d)))).
  rewrite <- (append_empty_r (net.uitoa d)).
  cbn [net.parseIPv4_loop].
  rewrite Hlen by done. change (0 <? 0)%nat with false. cbv iota.
  rewrite dtoi_uitoa by done. cbn [negb orb]. rewrite Hle, slice_from_len, Hmod by done.
  cbn [len String.length Nat.eqb]. change (0 <? 1)%nat with true. cbv iota.
  rewrite dtoi_uitoa by done. cbn [negb orb]. rewrite Hle, slice_from_len, Hmod by done.
  cbn [len String.length Nat.eqb]. change (0 <? 2)%nat with true. cbv iota.
  rewrite dtoi_uitoa by done. cbn [negb orb]. rewrite Hle, slice_from_len, Hmod by done.
  cbn [len String.length Nat.eqb]. change (0 <? 3)%nat with true. cbv iota.
  rewrite dtoi_uitoa by done. cbn [negb orb]. rewrite Hle, slice_from_len, Hmod by done.
  done.
Qed.

Lemma IP_String_IPv4 (a b c d : Z) :
  net.IP_String (net.IPv4 a b c d)
  = net.uitoa a +:+ "." +:+ net.uitoa b +:+ "." +:+ net.uitoa c +:+ "." +:+ net.uitoa d.
Proof. reflexivity. Qed.

(** A digit is no dot, no colon, no dash, and starts no white space. *)
Lemma digit_cases (c : ascii) :
  net.between "0" "9" c = true →
  c ∈ ["0"; "1"; "2"; "3"; "4"; "5"; "6"; "7"; "8"; "9"]%char.
Proof.
  destruct c as [[] [] [] [] [] [] [] []]; intros Hc; vm_compute in Hc;
    try discriminate Hc; clear Hc.
  all: repeat (first [by left | right]).
Qed.

Lemma ParseIP_scan_digits (whole d rest : string) :
  all_digits d = true →
  net.ParseIP_scan whole (d +:+ String "." rest) = net.parseIPv4 whole.
Proof.
  unfold all_digits. induction d as [|c d IH]; intros Hd; [done|].
  simpl in Hd. apply andb_true_iff in Hd as [Hc Hd].
  change (String c d +:+ String "." rest) with (String c (d +:+ String "." rest)).
  simpl. rewrite IH by done.
  apply digit_cases in Hc.
  repeat (apply elem_of_cons in Hc as [->|Hc]; [done|]). by apply elem_of_nil in Hc.
Qed.

Lemma Contains_digits (d : string) :
  all_digits d = true → strings.Contains d "-" = false.
Proof.
  unfold all_digits. induction d as [|c d IH]; intros Hd; [done|].
  simpl in Hd. apply andb_true_iff in Hd as [Hc Hd].
  rewrite Contains_byte, IH by done.
  apply digit_cases in Hc.
  repeat (apply elem_of_cons in Hc as [->|Hc]; [done|]). by apply elem_of_nil in Hc.
Qed.

Lemma cut_space_digit (c : ascii) (s : string) :
  net.between "0" "9" c = true →
  strings.cut_space (map strings.utf8 strings.White_Space) (String c s) = None
  ∧ strings.cut_space (map (fun r => String.rev (strings.utf8 r)) strings.White_Space)
      (String c s) = None.
Proof.
  intros Hc. apply digit_cases in Hc.
  repeat (apply elem_of_cons in Hc as [->|Hc]; [by split|]). by apply elem_of_nil in Hc.
Qed.

Lemma trim_go_stay enc fuel s :
  strings.cut_space enc s = None → strings.trim_go enc fuel s = s.
Proof. intros Hs. destruct fuel; simpl; by rewrite ?Hs. Qed.

Lemma rev_rev (s : string) : String.rev (String.rev s) = s.
Proof.
  induction s as [|c s IH]; [done|].
  rewrite rev_cons. generalize (String.rev s) IH. clear. intros x <-.
  induction x as [|d x IH]; [done|].
  change (String d x +:+ String c "") with (String d (x +:+ String c "")).
  rewrite rev_cons, IH. rewrite rev_cons. done.
Qed.

Lemma rev_snoc (s : string) (c : ascii) :
  String.rev (s +:+ String c "") = String c (String.rev s).
Proof.
  rewrite <- (rev_rev s) at 1. rewrite <- rev_cons. apply rev_rev.
Qed.

(** A string that begins and ends with a digit has no white space to
    trim. *)
Lemma TrimSpace_digits (c c' : ascii) (s s' : string) :
  net.between "0" "9" c = true → net.between "0" "9" c' = true →
  String c s = s' +:+ String c' "" →
  strings.TrimSpace (String c s) = String c s.
Proof.
  intros Hc Hc' Hlast.
  assert (strings.TrimLeft (String c s) = String c s) as Hleft.
  { unfold strings.TrimLeft. apply trim_go_stay.
    exact (proj1 (cut_space_digit c s Hc)). }
  assert (strings.TrimRight (String c s) = String c s) as Hright.
  { unfold strings.TrimRight. rewrite Hlast, rev_snoc.
    rewrite trim_go_stay by exact (proj2 (cut_space_digit c' (String.rev s') Hc')).
    by rewrite <- rev_snoc, rev_rev. }
  unfold strings.TrimSpace. by rewrite Hleft, Hright.
Qed.

Lemma digits_first (d : string) :
  all_digits d = true → d ≠ "" →
  ∃ c s, d = String c s ∧ net.between "0" "9" c = true.
Proof.
  unfold all_digits. destruct d as [|c d]; [done|]. simpl.
  intros [Hc _]%andb_true_iff _. by exists c, d.
Qed.

Lemma digits_last (d : string) :
  all_digits d = true → d ≠ "" →
  ∃ s c, d = s +:+ String c "" ∧ net.between "0" "9" c = true.
Proof.
  unfold all_digits. induction d as [|c d IH]; [done|]. simpl.
  intros [Hc Hd]%andb_true_iff _. destruct d as [|c' d].
  - by exists "", c.
  - destruct IH as (s & c'' & -> & Hc''); [done..|].
    by exists (String c s), c''.
Qed.

(** The dotted form of an IPv4 address: no dash, nothing to trim. *)
Lemma dotted_plain (a b c d : Z) :
  octet a → octet b → octet c → octet d →
  let s := net.uitoa a +:+ "." +:+ net.uitoa b +:+ "." +:+ net.uitoa c
           +:+ "." +:+ net.uitoa d in
  strings.Contains s "-" = false
  ∧ strings.TrimSpace s = s
  ∧ net.ParseIP s = Some (net.IPv4 a b c d).
Proof.
  intros Ha Hb Hc Hd s.
  destruct (uitoa_octet a Ha) as (Hda & Hna & _), (uitoa_octet b Hb) as (Hdb & Hnb & _),
    (uitoa_octet c Hc) as (Hdc & Hnc & _), (uitoa_octet d Hd) as (Hdd & Hnd & _).
  split; [|split].
  - unfold s. change ("." +:+ ?x) with (String "." x).
    repeat (rewrite Contains_byte_app || rewrite Contains_byte).
    by rewrite !Contains_digits.
  - destruct (digits_first _ Hda Hna) as (c0 & s0 & E0 & Hc0).
    destruct (digits_last _ Hdd Hnd) as (s1 & c1 & E1 & Hc1).
    unfold s. rewrite E0.
    change (String c0 s0 +:+ ?x) with (String c0 (s0 +:+ x)).
    apply (TrimSpace_digits c0 c1 _
             (String c0 s0 +:+ "." +:+ net.uitoa b +:+ "." +:+ net.uitoa c +:+ "." +:+ s1));
      [done..|].
    rewrite E1, !append_assoc. reflexivity.
  - unfold net.ParseIP, s at 2.
    change ("." +:+ ?x) with (String "." x).
    rewrite ParseIP_scan_digits by done. by apply parseIPv4_dotted.
Qed.

(** X14.  A range between two IPv4 addresses, printed by [IPRange.String]
    and parsed by [ParseIPRange], is the range itself: the text of a range
    in a rule stands for the range of the configuration. *)
Theorem IPRange_String_ParseIPRange (a b c d e f g h : Z) :
  Forall octet [a; b; c; d; e; f; g; h] →
  let r := {| from := net.IPv4 a b c d; to := net.IPv4 e f g h |} in
  ParseIPRange (IPRange_String r) = Some r.
Proof.
  intros Hoctets r.
  repeat (apply Forall_cons in Hoctets as [? Hoctets]).
  destruct (dotted_plain a b c d) as (Hdash1 & Htrim1 & Hparse1); [done..|].
  destruct (dotted_plain e f g h) as (Hdash2 & Htrim2 & Hparse2); [done..|].
  unfold IPRange_String, r. cbn [from to]. rewrite !IP_String_IPv4.
  unfold ParseIPRange.
  change ("-" +:+ ?x) with (String "-" x).
  rewrite (Split_two "-") by done.
  cbn [length Nat.eqb map]. by rewrite Htrim1, Htrim2, Hparse1, Hparse2.
Qed.

Lemma IPRange_String_ParseIPRange_witness :
  Forall octet [192; 168; 1; 1; 192; 168; 1; 10]
  ∧ ParseIPRange
      (IPRange_String {| from := net.IPv4 192 168 1 1; to := net.IPv4 192 168 1 10 |})
    = Some {| from := net.IPv4 192 168 1 1; to := net.IPv4 192 168 1 10 |}.
Proof.
  assert (Forall octet [192; 168; 1; 1; 192; 168; 1; 10]) as Hoctets
    by (repeat constructor; unfold octet; lia).
  split; [assumption|].
  exact (IPRange_String_ParseIPRange 192 168 1 1 192 168 1 10 Hoctets).
Defined.

(** ** The theorem on success at work *)

Lemma applyFiltering_succeeds_witness :
  let w := filter_table.world filter_table.base in
  let w' := snd (applyFiltering filter_ex w) in
  config filter_ex = Some allowlist_ex
  ∧ (applyFiltering filter_ex w = (None, w')
     ↔ iptables.chain_exists "CONTAINERS" iptables.Filter (iptables.backend w) = true
       ∧ iptables.chain_exists "CONTAINER-REJECT" iptables.Filter (iptables.backend w)
         = true
       ∧ all_succeed (rules (applyFiltering_rules (ifaceName filter_ex) allowlist_ex))
           (iptables.backend w)
       ∧ w' = {| iptables.backend :=
                   execute_all
                     (rules (applyFiltering_rules (ifaceName filter_ex) allowlist_ex))
                     (iptables.backend w);
                 iptables.executed :=
                   iptables.executed w
                   ++ rules (applyFiltering_rules (ifaceName filter_ex) allowlist_ex) |}).
Proof.
  intros w w'.
  assert (config filter_ex = Some allowlist_ex) as Hconfig by reflexivity.
  split; [assumption|].
  exact (applyFiltering_succeeds filter_ex allowlist_ex w w' Hconfig).
Defined.

(** ** A network, printed and parsed again *)

Lemma simpleMaskLength_CIDRMask (ones : Z) :
  0 ≤ ones ≤ 32 → net.simpleMaskLength (net.CIDRMask ones 32) = ones.
Proof.
  intros Hones.
  assert (forallb (fun ones => net.simpleMaskLength (net.CIDRMask ones 32) =? ones)
            (map Z.of_nat (seq 0 33)) = true) as Hall by (vm_compute; reflexivity).
  rewrite forallb_forall in Hall. apply Z.eqb_eq, Hall, in_map_iff.
  exists (Z.to_nat ones). split; [lia|]. apply in_seq. lia.
Qed.

Lemma land_octet_l (v m : Z) : octet v → octet (Z.land v m).
Proof.
  intros Hv.
  assert (Z.land v m = Z.land (Z.land v m) 255) as ->.
  { rewrite <- (land_octet v Hv) at 1.
    by rewrite <- Z.land_assoc, (Z.land_comm 255), Z.land_assoc. }
  change 255 with (Z.ones 8). rewrite Z.land_ones by lia.
  unfold octet. apply Z.mod_pos_bound. lia.
Qed.

(** An IPv4 network of [net.ParseCIDR]: four bytes under the mask of a
    prefix length of at most 32. *)
Lemma ParseCIDR_IPv4 (s : string) (ip : list Z) (n : net.IPNet) :
  net.ParseCIDR s = Some (ip, n) → length (net.IPNet_IP n) = 4%nat →
  ∃ a b c d ones,
    octet a ∧ octet b ∧ octet c ∧ octet d ∧ 0 ≤ ones ≤ 32
    ∧ n = {| net.IPNet_IP := [a; b; c; d]; net.IPNet_Mask := net.CIDRMask ones 32 |}
    ∧ zip_with Z.land [a; b; c; d] (net.CIDRMask ones 32) = [a; b; c; d].
Proof.
  unfold net.ParseCIDR.
  destruct (net.byteIndex s "/") as [i|]; [|done].
  set (addr := net.slice_to i s). set (mask := slice_from (S i) s).
  destruct (net.dtoi mask) as [[ones k] ok].
  destruct (net.parseIPv4 addr) as [ip4|] eqn:E4.
  - destruct (negb ok || negb (k =? len mask)%nat || (ones <? 0)
              || (8 * Z.of_nat net.IPv4len <? ones)) eqn:Hcheck; [done|].
    intros [= <- <-] _.
    apply orb_false_iff in Hcheck as [Hcheck Hle].
    apply orb_false_iff in Hcheck as [_ Hge].
    apply Z.ltb_ge in Hle, Hge. change (8 * Z.of_nat net.IPv4len) with 32 in *.
    apply parseIPv4_octets in E4 as (a & b & c & d & -> & Ha & Hb & Hc & Hd).
    pose proof (CIDRMask_length ones 32 (or_introl eq_refl) (conj Hge Hle)) as Hlen.
    assert (length (net.CIDRMask ones 32) = 4%nat) as Hl
      by (apply Nat2Z.inj; exact Hlen).
    assert (net.IP_Mask (net.IPv4 a b c d) (net.CIDRMask ones 32)
            = zip_with Z.land [a; b; c; d] (net.CIDRMask ones 32)) as ->.
    { unfold net.IP_Mask, net.IPv4len, net.IPv6len.
      rewrite Hl. cbn. rewrite bool_decide_true by done. cbn. by rewrite Hl. }
    destruct (net.CIDRMask ones 32) as [|m1 [|m2 [|m3 [|m4 [|]]]]] eqn:Hmask; try done.
    exists (Z.land a m1), (Z.land b m2), (Z.land c m3), (Z.land d m4), ones.
    split; [by apply land_octet_l|]. split; [by apply land_octet_l|].
    split; [by apply land_octet_l|]. split; [by apply land_octet_l|].
    split; [lia|]. rewrite Hmask. split; [done|].
    simpl. by rewrite <- !Z.land_assoc, !Z.land_diag.
  - destruct (net.parseIPv6 addr) as [ip6|] eqn:E6; [|done].
    destruct (negb ok || negb (k =? len mask)%nat || (ones <? 0)
              || (8 * Z.of_nat net.IPv6len <? ones)) eqn:Hcheck; [done|].
    intros [= <- <-]. cbn [net.IPNet_IP].
    apply orb_false_iff in Hcheck as [Hcheck Hle].
    apply orb_false_iff in Hcheck as [_ Hge].
    apply Z.ltb_ge in Hle, Hge. change (8 * Z.of_nat net.IPv6len) with 128 in *.
    apply parseIPv6_length in E6.
    pose proof (CIDRMask_length ones 128 (or_intror eq_refl) (conj Hge Hle)) as Hlen.
    assert (length (net.CIDRMask ones 128) = 16%nat) as Hl
      by (apply Nat2Z.inj; exact Hlen).
    rewrite IP_Mask_IPv6 by done. rewrite length_zip_with, Hl, E6. done.
Qed.

Lemma Contains_slash (x y : string) : strings.Contains (x +:+ String "/" y) "/" = true.
Proof.
  rewrite Contains_byte_app, Contains_byte. simpl. apply orb_true_r.
Qed.

Lemma Contains_digits_slash (d : string) :
  all_digits d = true → strings.Contains d "/" = false.
Proof.
  unfold all_digits. induction d as [|c d IH]; intros Hd; [done|].
  simpl in Hd. apply andb_true_iff in Hd as [Hc Hd].
  rewrite Contains_byte, IH by done.
  apply digit_cases in Hc.
  repeat (apply elem_of_cons in Hc as [->|Hc]; [done|]). by apply elem_of_nil in Hc.
Qed.

Lemma IPNet_String_IPv4 (a b c d ones : Z) :
  0 ≤ ones ≤ 32 →
  net.IPNet_String {| net.IPNet_IP := [a; b; c; d];
                      net.IPNet_Mask := net.CIDRMask ones 32 |}
  = (net.uitoa a +:+ "." +:+ net.uitoa b +:+ "." +:+ net.uitoa c +:+ "." +:+ net.uitoa d)
    +:+ String "/" (net.uitoa ones).
Proof.
  intros Hones. unfold net.IPNet_String.
  pose proof (CIDRMask_length ones 32 (or_introl eq_refl) Hones) as Hlen.
  assert (length (net.CIDRMask ones 32) = 4%nat) as Hl
    by (apply Nat2Z.inj; exact Hlen).
  assert (net.networkNumberAndMask
            {| net.IPNet_IP := [a; b; c; d]; net.IPNet_Mask := net.CIDRMask ones 32 |}
          = Some ([a; b; c; d], net.CIDRMask ones 32)) as ->.
  { unfold net.networkNumberAndMask. cbn [net.IPNet_IP net.IPNet_Mask].
    rewrite Hl. reflexivity. }
  rewrite simpleMaskLength_CIDRMask by done.
  assert ((ones =? -1) = false) as -> by (apply Z.eqb_neq; lia).
  change (net.IP_String [a; b; c; d])
    with (net.uitoa a +:+ "." +:+ net.uitoa b +:+ "." +:+ net.uitoa c
          +:+ "." +:+ net.uitoa d).
  reflexivity.
Qed.

(** X15.  An IPv4 network [ParseIPOrNet] returns, printed by
    [IPNet.String] as it is in a rule and parsed by [ParseIPOrNet] again,
    is the network itself. *)
Theorem IPNet_String_ParseIPOrNet (s : string) (n : net.IPNet) :
  ParseIPOrNet s = Some n →
  length (net.IPNet_IP n) = 4%nat →
  ParseIPOrNet (net.IPNet_String n) = Some n.
Proof.
  unfold ParseIPOrNet at 1.
  destruct (net.ParseCIDR _) as [[ip n']|] eqn:E; [|done].
  intros [= ->] Hlen.
  destruct (ParseCIDR_IPv4 _ _ _ E Hlen)
    as (a & b & c & d & ones & Ha & Hb & Hc & Hd & Hones & -> & Hmasked).
  rewrite IPNet_String_IPv4 by done.
  destruct (dotted_plain a b c d Ha Hb Hc Hd) as (_ & _ & Hparse).
  set (dotted := net.uitoa a +:+ "." +:+ net.uitoa b +:+ "." +:+ net.uitoa c
                 +:+ "." +:+ net.uitoa d) in *.
  assert (strings.Contains dotted "/" = false) as Hslash.
  { destruct (uitoa_octet a Ha) as (Hda & _), (uitoa_octet b Hb) as (Hdb & _),
      (uitoa_octet c Hc) as (Hdc & _), (uitoa_octet d Hd) as (Hdd & _).
    unfold dotted. change ("." +:+ ?x) with (String "." x).
    repeat (rewrite Contains_byte_app || rewrite Contains_byte).
    by rewrite !Contains_digits_slash. }
  assert (net.parseIPv4 dotted = Some (net.IPv4 a b c d)) as H4
    by (by apply parseIPv4_dotted).
  assert (octet ones) as Hoctet by (unfold octet; lia).
  destruct (uitoa_octet ones Hoctet) as (_ & _ & Hdtoi).
  unfold ParseIPOrNet. rewrite Contains_slash. cbn [negb].
  unfold net.ParseCIDR.
  rewrite byteIndex_bare, slice_to_app, slice_from_app, H4, Hdtoi by done.
  rewrite Nat.eqb_refl.
  assert ((ones <? 0) = false) as -> by (apply Z.ltb_ge; lia).
  assert ((8 * Z.of_nat net.IPv4len <? ones) = false) as ->
    by (apply Z.ltb_ge; change (8 * Z.of_nat net.IPv4len) with 32; lia).
  cbn [negb orb]. change (8 * Z.of_nat net.IPv4len) with 32.
  pose proof (CIDRMask_length ones 32 (or_introl eq_refl) Hones) as Hlen'.
  assert (length (net.CIDRMask ones 32) = 4%nat) as Hl
    by (apply Nat2Z.inj; exact Hlen').
  assert (net.IP_Mask (net.IPv4 a b c d) (net.CIDRMask ones 32)
          = zip_with Z.land [a; b; c; d] (net.CIDRMask ones 32)) as ->.
  { unfold net.IP_Mask, net.IPv4len, net.IPv6len.
    rewrite Hl. cbn. rewrite bool_decide_true by done. cbn. by rewrite Hl. }
  by rewrite Hmasked.
Qed.

Lemma IPNet_String_ParseIPOrNet_witness :
  let n := {| net.IPNet_IP := [10; 0; 0; 0]; net.IPNet_Mask := [255; 255; 240; 0] |} in
  ParseIPOrNet "10.0.3.77/20" = Some n
  ∧ length (net.IPNet_IP n) = 4%nat
  ∧ ParseIPOrNet (net.IPNet_String n) = Some n.
Proof.
  intros n.
  assert (ParseIPOrNet "10.0.3.77/20" = Some n) as Hparse by (vm_compute; reflexivity).
  assert (length (net.IPNet_IP n) = 4%nat) as Hlen by reflexivity.
  do 2 (split; [assumption|]).
  exact (IPNet_String_ParseIPOrNet "10.0.3.77/20" n Hparse Hlen).
Defined.

(** ** From the string to the program *)

(** X16.  For a string [NetFilterConfigParse] takes, the program of
    [applyFiltering] has one rule for each piece of the string, in
    addition to the creation of the chain, the jump to CONTAINER-REJECT and
    the jump from CONTAINERS: three more rules than the string has
    pieces. *)
Theorem parsed_program_length (s ifaceName : string) (config : netFilterConfig)
    (err : option string) :
  NetFilterConfigParse s = (Some config, err) →
  length (rules (applyFiltering_rules ifaceName config))
  = (length (strings.Split s ",") + 3)%nat.
Proof.
  unfold NetFilterConfigParse. destruct (negb _); [|done].
  intros Hloop.
  destruct (NetFilterConfigParse_loop_shape (strings.Split s ",")
              {| allowedNets := []; allowedRanges := [] |}) as [[config' H']|[msg H']];
    rewrite H' in Hloop; [|done].
  injection Hloop as -> <-.
  apply NetFilterConfigParse_loop_count in H'. simpl in H'.
  rewrite applyFiltering_rules_eq. simpl.
  rewrite !length_app, !length_map. simpl. lia.
Qed.

Lemma parsed_program_length_witness :
  let s := "10.0.0.0/24, 192.168.1.1-192.168.1.10" in
  let config :=
    {| allowedNets :=
         [{| net.IPNet_IP := [10; 0; 0; 0]; net.IPNet_Mask := [255; 255; 255; 0] |}];
       allowedRanges :=
         [{| from := net.IPv4 192 168 1 1; to := net.IPv4 192 168 1 10 |}] |} in
  NetFilterConfigParse s = (Some config, None)
  ∧ length (rules (applyFiltering_rules "veth1" config))
    = (length (strings.Split s ",") + 3)%nat.
Proof.
  intros s config.
  assert (NetFilterConfigParse s = (Some config, None)) as Hparse
    by (vm_compute; reflexivity).
  split; [assumption|].
  exact (parsed_program_length s "veth1" config None Hparse).
Defined.
